(** * The website generator endpoint: [server.js] and its second variant

    A shallow embedding of the two source files of the repository
    ([src/server.js] and the unnamed variant [src/unnamed/part_000]) and the
    properties of their three pieces of logic: the JSON extractor
    [extractJSON], the retrying fetcher [fetchWithRetry] and the
    [POST /generate] handler with its loop over the model list.

    - JavaScript strings are sequences of 16-bit code units ([jsstring]).
    - JavaScript values are the JSON values plus [undefined].
    - [JSON.parse], [JSON.stringify], [ToString],
      [String.prototype.indexOf/lastIndexOf/substring] and property access
      are library code; they are modelled after ECMA-262.  What ECMA-262
      leaves to the engine (the wording of its errors, the depth of its call
      stack) and the digits of a finite Number are parameters ([runtime]).
    - Effects (outbound requests, timers, console output) are recorded in a
      trace that is threaded through a state-and-exception monad.  The
      transport behind [fetch] is a parameter. *)

From Stdlib Require Import ZArith NArith List Bool Lia String Ascii.
From Stdlib Require Import DecimalString.
Import ListNotations.
Open Scope Z_scope.
Set Warnings "-register-all".

(* ================================================================== *)
(** ** JavaScript strings *)

Definition code_unit := N.
Definition jsstring := list code_unit.

(** The code unit of an ASCII character, and the string of a literal. *)
Definition cu (c : ascii) : code_unit := N_of_ascii c.
Definition js (s : string) : jsstring := map N_of_ascii (list_ascii_of_string s).

(** A literal written with apostrophes where the string has double quotes. *)
Definition jsq (s : string) : jsstring :=
  map (fun c => if (c =? 39)%N then 34%N else c) (js s).

Fixpoint jsstring_eqb (a b : jsstring) : bool :=
  match a, b with
  | [], [] => true
  | x :: a', y :: b' => (x =? y)%N && jsstring_eqb a' b'
  | _, _ => false
  end.

(** [`${n}`] for an integral Number. *)
Definition decimal (z : Z) : jsstring := js (NilZero.string_of_int (Z.to_int z)).

(** [s.indexOf(c)] for a one-unit search string: the least index holding
    [c], or [-1]. *)
Fixpoint index_from (c : code_unit) (s : jsstring) (i : Z) : Z :=
  match s with
  | [] => -1
  | x :: r => if (x =? c)%N then i else index_from c r (i + 1)
  end.

Definition indexOf (s : jsstring) (c : code_unit) : Z := index_from c s 0.

(** [s.lastIndexOf(c)]: the greatest index holding [c], or [-1]. *)
Fixpoint last_index_from (c : code_unit) (s : jsstring) (i found : Z) : Z :=
  match s with
  | [] => found
  | x :: r => last_index_from c r (i + 1) (if (x =? c)%N then i else found)
  end.

Definition lastIndexOf (s : jsstring) (c : code_unit) : Z :=
  last_index_from c s 0 (-1).

(** [s.substring(a, b)]: both arguments are clamped to [0 .. length], and
    they are swapped when the first exceeds the second. *)
Definition substring (s : jsstring) (a b : Z) : jsstring :=
  let len := Z.of_nat (List.length s) in
  let a' := Z.min (Z.max a 0) len in
  let b' := Z.min (Z.max b 0) len in
  let from := Z.min a' b' in
  let to := Z.max a' b' in
  firstn (Z.to_nat (to - from)) (skipn (Z.to_nat from) s).

(* ================================================================== *)
(** ** JavaScript values *)

(** A Number that came out of a JSON text is kept as the decimal the text
    denotes, [(-1)^negative * mantissa * 10^exponent10]; the engine rounds it
    to the nearest double. *)
Record number := { negative : bool; mantissa : N; exponent10 : Z }.

(** The members of an object are listed in the order of their definition; a
    later definition of a key overrides an earlier one. *)
Inductive value :=
| VUndefined
| VNull
| VBool (b : bool)
| VNumber (n : number)
| VString (s : jsstring)
| VArray (elements : list value)
| VObject (members : list (jsstring * value)).

Definition integer (z : Z) : value :=
  VNumber {| negative := z <? 0; mantissa := Z.abs_N z; exponent10 := 0 |}.

(** A decimal rounds to (plus or minus) zero exactly when its magnitude is at
    most [2^-1075], half of the least positive double. *)
Definition rounds_to_zero (n : number) : bool :=
  (mantissa n =? 0)%N
  || ((exponent10 n <? 0)
      && (Z.of_N (mantissa n) * 2 ^ 1075 <=? 10 ^ (- exponent10 n))).

(** A decimal rounds to (plus or minus) [Infinity] exactly when its
    magnitude is at least [2^1024 - 2^970], half an ulp above the greatest
    double. *)
Definition rounds_to_infinity (n : number) : bool :=
  if 0 <=? exponent10 n
  then 2 ^ 1024 - 2 ^ 970 <=? Z.of_N (mantissa n) * 10 ^ exponent10 n
  else (2 ^ 1024 - 2 ^ 970) * 10 ^ (- exponent10 n) <=? Z.of_N (mantissa n).

(** [ToBoolean]: what [!v], [a || b] and [if (v)] test. *)
Definition ToBoolean (v : value) : bool :=
  match v with
  | VUndefined | VNull => false
  | VBool b => b
  | VNumber n => negb (rounds_to_zero n)
  | VString s => match s with [] => false | _ => true end
  | VArray _ | VObject _ => true
  end.

(** The last definition of key [k] among the members. *)
Fixpoint own_property (k : jsstring) (ms : list (jsstring * value)) : option value :=
  match ms with
  | [] => None
  | (k', v) :: r =>
      match own_property k r with
      | Some v' => Some v'
      | None => if jsstring_eqb k k' then Some v else None
      end
  end.

(* ================================================================== *)
(** ** Exceptions *)

(** [Error] is what the source throws itself ([new Error(message)]);
    [FetchError] is a rejection of the transport; the others are raised by
    the engine, with a wording of its own: [TypeError] by a property access
    or a method call on a value that has no such member, [SyntaxError] by
    [JSON.parse], [NotPrimitive] (a [TypeError] with another wording) by the
    conversion of an object to a string, [RangeError] when a recursive
    built-in exhausts the call stack. *)
Inductive exn :=
| Error (message : jsstring)
| FetchError (message : jsstring)
| TypeError
| SyntaxError
| NotPrimitive
| RangeError.

Inductive outcome (A : Type) :=
| Returned (a : A)
| Thrown (e : exn).
Arguments Returned {A} a.
Arguments Thrown {A} e.

Definition obind {A B} (m : outcome A) (k : A -> outcome B) : outcome B :=
  match m with
  | Returned a => k a
  | Thrown e => Thrown e
  end.

(** [try { m } catch { h }] without effects. *)
Definition otry {A} (m : outcome A) (h : exn -> outcome A) : outcome A :=
  match m with
  | Returned a => Returned a
  | Thrown e => h e
  end.

Notation "'let!' x ':=' m 'in' k" := (obind m (fun x => k))
  (at level 10, x name, m at level 100, k at level 200).

(** [v.k] for a key that no prototype defines (the handler reads [topic],
    [prompt], [candidates], [content], [parts] and [text]). *)
Definition get (v : value) (k : jsstring) : outcome value :=
  match v with
  | VUndefined | VNull => Thrown TypeError
  | VObject ms =>
      Returned (match own_property k ms with Some x => x | None => VUndefined end)
  | _ => Returned VUndefined
  end.

(** [v[0]]. *)
Definition get0 (v : value) : outcome value :=
  match v with
  | VUndefined | VNull => Thrown TypeError
  | VObject ms =>
      Returned (match own_property (js "0") ms with Some x => x | None => VUndefined end)
  | VArray l => Returned (match l with x :: _ => x | [] => VUndefined end)
  | VString s => Returned (match s with c :: _ => VString [c] | [] => VUndefined end)
  | _ => Returned VUndefined
  end.

(** [v?.k] and [v?.[0]]: [undefined] when [v] is [null] or [undefined]. *)
Definition get_opt (v : value) (k : jsstring) : value :=
  match get v k with Returned x => x | Thrown _ => VUndefined end.

Definition get0_opt (v : value) : value :=
  match get0 v with Returned x => x | Thrown _ => VUndefined end.

(* ================================================================== *)
(** ** The engine *)

(** What is left to the JavaScript engine: the wording of the errors it
    raises; [Number::toString] for a decimal that rounds to a finite,
    nonzero double; and how many levels of nesting, below the first, the
    recursions of [Array.prototype.join] and of [JSON.stringify] can take
    before the call stack is exhausted. *)
Record runtime := {
  wording : exn -> jsstring;
  number_text : number -> jsstring;
  join_depth : nat;
  stringify_depth : nat
}.

(** [Number::toString]: both zeros are [0]. *)
Definition Number_toString (engine : runtime) (n : number) : jsstring :=
  if rounds_to_zero n then js "0"
  else if rounds_to_infinity n then
    (if negative n then js "-Infinity" else js "Infinity")
  else number_text engine n.

(* ================================================================== *)
(** ** [ToString] *)

(** [ToString(v)], as a template literal applies it to [${v}], with [stack]
    levels of nested arrays left.  An array is converted by
    [Array.prototype.join]: its elements are converted in order and
    separated by commas, [undefined] and [null] giving the empty string.
    An object that came out of [JSON.parse] has no callable member of its
    own: with an own [toString] member no method yields a primitive
    ([Object.prototype.valueOf] returns the object), without one
    [Object.prototype.toString] is called. *)
Fixpoint ToString_in (engine : runtime) (stack : nat) (v : value) {struct v} :
  outcome jsstring :=
  match v with
  | VUndefined => Returned (js "undefined")
  | VNull => Returned (js "null")
  | VBool b => Returned (if b then js "true" else js "false")
  | VNumber n => Returned (Number_toString engine n)
  | VString s => Returned s
  | VArray l =>
      match stack with
      | O => Thrown RangeError
      | S k =>
          (fix join (l : list value) : outcome jsstring :=
             match l with
             | [] => Returned []
             | x :: r =>
                 let! sx := match x with
                            | VUndefined | VNull => Returned []
                            | _ => ToString_in engine k x
                            end in
                 match r with
                 | [] => Returned sx
                 | _ :: _ => let! sr := join r in Returned (sx ++ js "," ++ sr)
                 end
             end) l
      end
  | VObject ms =>
      match own_property (js "toString") ms with
      | Some _ => Thrown NotPrimitive
      | None => Returned (js "[object Object]")
      end
  end.

Definition ToString (engine : runtime) (v : value) : outcome jsstring :=
  ToString_in engine (S (join_depth engine)) v.

(* ================================================================== *)
(** ** [JSON.stringify] *)

Definition hex_digit (n : N) : code_unit :=
  (if n <? 10 then 48 + n else 87 + n)%N.

(** [\uXXXX], in lower case. *)
Definition unicode_escape (c : code_unit) : jsstring :=
  [92; 117; hex_digit (c / 4096 mod 16); hex_digit (c / 256 mod 16);
   hex_digit (c / 16 mod 16); hex_digit (c mod 16)]%N.

Definition is_high_surrogate (c : code_unit) : bool := ((55296 <=? c) && (c <=? 56319))%N.
Definition is_low_surrogate (c : code_unit) : bool := ((56320 <=? c) && (c <=? 57343))%N.

(** The inside of [QuoteJSONString]: the short escapes, [\u00XX] for the
    other control characters and [\uDXXX] for a surrogate that is not part
    of a pair. *)
Fixpoint quote_units (s : jsstring) : jsstring :=
  match s with
  | [] => []
  | c :: r =>
      if (c =? 8)%N then [92; 98]%N ++ quote_units r
      else if (c =? 9)%N then [92; 116]%N ++ quote_units r
      else if (c =? 10)%N then [92; 110]%N ++ quote_units r
      else if (c =? 12)%N then [92; 102]%N ++ quote_units r
      else if (c =? 13)%N then [92; 114]%N ++ quote_units r
      else if (c =? 34)%N then [92; 34]%N ++ quote_units r
      else if (c =? 92)%N then [92; 92]%N ++ quote_units r
      else if (c <? 32)%N then unicode_escape c ++ quote_units r
      else if is_high_surrogate c then
        match r with
        | d :: r' =>
            if is_low_surrogate d then c :: d :: quote_units r'
            else unicode_escape c ++ quote_units r
        | [] => unicode_escape c
        end
      else if is_low_surrogate c then unicode_escape c ++ quote_units r
      else c :: quote_units r
  end.

Definition QuoteJSONString (s : jsstring) : jsstring :=
  [34%N] ++ quote_units s ++ [34%N].

(** The texts of a list, separated by commas. *)
Fixpoint commas (l : list jsstring) : jsstring :=
  match l with
  | [] => []
  | [x] => x
  | x :: r => x ++ js "," ++ commas r
  end.

(** A key is an array index when it is the canonical decimal of an integer
    below [2^32 - 1]. *)
Fixpoint index_value (s : jsstring) (acc : N) : option N :=
  match s with
  | [] => Some acc
  | c :: r =>
      if ((48 <=? c) && (c <=? 57))%N then index_value r (10 * acc + (c - 48))%N
      else None
  end.

Definition array_index (k : jsstring) : option N :=
  match k with
  | [] => None
  | c :: r =>
      if (c =? 48)%N && negb (match r with [] => true | _ => false end) then None
      else
        match index_value k 0 with
        | Some n => if (n <? 4294967295)%N then Some n else None
        | None => None
        end
  end.

(** The keys of a member list, each once, in the order of their first
    definition. *)
Fixpoint distinct (keys : list jsstring) : list jsstring :=
  match keys with
  | [] => []
  | k :: r => k :: filter (fun k' => negb (jsstring_eqb k k')) (distinct r)
  end.

Fixpoint insert_index (n : N) (k : jsstring) (l : list (N * jsstring)) :
  list (N * jsstring) :=
  match l with
  | [] => [(n, k)]
  | (m, k') :: r => if (n <? m)%N then (n, k) :: l else (m, k') :: insert_index n k r
  end.

(** [OrdinaryOwnPropertyKeys]: the array indices in ascending order, then
    the other keys in the order of their creation. *)
Definition own_keys (keys : list jsstring) : list jsstring :=
  let ks := distinct keys in
  map snd (fold_right (fun k acc => match array_index k with
                                    | Some n => insert_index n k acc
                                    | None => acc
                                    end) [] ks)
  ++ filter (fun k => match array_index k with Some _ => false | None => true end) ks.

(** The last entry for key [k]. *)
Fixpoint last_entry {A} (k : jsstring) (l : list (jsstring * A)) : option A :=
  match l with
  | [] => None
  | (k', a) :: r =>
      match last_entry k r with
      | Some a' => Some a'
      | None => if jsstring_eqb k k' then Some a else None
      end
  end.

(** The properties of an object, [key:text] for each key in order; a
    property whose value is [undefined] is left out. *)
Fixpoint properties (keys : list jsstring)
  (texts : list (jsstring * outcome (option jsstring))) : outcome (list jsstring) :=
  match keys with
  | [] => Returned []
  | k :: r =>
      let! sx := match last_entry k texts with
                 | Some o => o
                 | None => Returned None
                 end in
      let! sr := properties r texts in
      Returned match sx with
               | Some s => (QuoteJSONString k ++ js ":" ++ s) :: sr
               | None => sr
               end
  end.

(** A Number that is not finite is written [null]. *)
Definition number_json (engine : runtime) (n : number) : jsstring :=
  if rounds_to_infinity n then js "null" else Number_toString engine n.

(** [SerializeJSONProperty] without replacer and indentation, with [stack]
    levels of nesting left: [None] stands for [undefined].  A value that
    came out of [JSON.parse] has no [toJSON] method.  Each member of an
    object is serialized where it stands; the properties of the object are
    then the last definitions of its keys. *)
Fixpoint serialize (engine : runtime) (stack : nat) (v : value) {struct v} :
  outcome (option jsstring) :=
  match v with
  | VUndefined => Returned None
  | VNull => Returned (Some (js "null"))
  | VBool b => Returned (Some (if b then js "true" else js "false"))
  | VNumber n => Returned (Some (number_json engine n))
  | VString s => Returned (Some (QuoteJSONString s))
  | VArray l =>
      match stack with
      | O => Thrown RangeError
      | S k =>
          let! items :=
            (fix elements (l : list value) : outcome (list jsstring) :=
               match l with
               | [] => Returned []
               | x :: r =>
                   let! sx := serialize engine k x in
                   let! sr := elements r in
                   Returned (match sx with Some s => s | None => js "null" end :: sr)
               end) l in
          Returned (Some (js "[" ++ commas items ++ js "]"))
      end
  | VObject ms =>
      match stack with
      | O => Thrown RangeError
      | S k =>
          let texts :=
            (fix members (ms : list (jsstring * value)) :
               list (jsstring * outcome (option jsstring)) :=
               match ms with
               | [] => []
               | (key, x) :: r => (key, serialize engine k x) :: members r
               end) ms in
          let! props := properties (own_keys (map fst ms)) texts in
          Returned (Some (js "{" ++ commas props ++ js "}"))
      end
  end.

(** [JSON.stringify(v)]. *)
Definition JSON_stringify (engine : runtime) (v : value) : outcome (option jsstring) :=
  serialize engine (S (stringify_depth engine)) v.

(* ================================================================== *)
(** ** [JSON.parse]

    A recursive-descent recogniser of the JSON grammar of ECMA-404, which is
    the grammar [JSON.parse] accepts.  The lexical parts recurse on the text;
    the mutually recursive parts (values, array elements, object members)
    recurse on a fuel that [JSON_parse] sets from the length of the text. *)

Definition is_ws (c : code_unit) : bool :=
  (c =? 9)%N || (c =? 10)%N || (c =? 13)%N || (c =? 32)%N.

Fixpoint skip_ws (s : jsstring) : jsstring :=
  match s with
  | c :: r => if is_ws c then skip_ws r else s
  | [] => []
  end.

Definition digit_value (c : code_unit) : option N :=
  if ((48 <=? c) && (c <=? 57))%N then Some (c - 48)%N else None.

Definition hex_value (c : code_unit) : option N :=
  if ((48 <=? c) && (c <=? 57))%N then Some (c - 48)%N
  else if ((97 <=? c) && (c <=? 102))%N then Some (c - 87)%N
  else if ((65 <=? c) && (c <=? 70))%N then Some (c - 55)%N
  else None.

Definition hex4 (a b c d : code_unit) : option code_unit :=
  match hex_value a, hex_value b, hex_value c, hex_value d with
  | Some x, Some y, Some z, Some w => Some (((x * 16 + y) * 16 + z) * 16 + w)%N
  | _, _, _, _ => None
  end.

(** The character a two-character escape stands for. *)
Definition simple_escape (c : code_unit) : option code_unit :=
  if (c =? 34%N)%N then Some (34%N)
  else if (c =? 92%N)%N then Some (92%N)
  else if (c =? cu "/")%N then Some (cu "/")
  else if (c =? cu "b")%N then Some 8%N
  else if (c =? cu "f")%N then Some 12%N
  else if (c =? cu "n")%N then Some 10%N
  else if (c =? cu "r")%N then Some 13%N
  else if (c =? cu "t")%N then Some 9%N
  else None.

Definition push_unit (c : code_unit) (r : option (jsstring * jsstring)) :
  option (jsstring * jsstring) :=
  match r with
  | Some (str, rest) => Some (c :: str, rest)
  | None => None
  end.

(** The characters of a string literal after its opening quote, up to the
    closing quote: the string denoted and the text that follows. *)
Fixpoint lex_string (s : jsstring) : option (jsstring * jsstring) :=
  match s with
  | [] => None
  | c :: r =>
      if (c =? 34%N)%N then Some ([], r)
      else if (c =? 92%N)%N then
        match r with
        | [] => None
        | e :: r1 =>
            if (e =? cu "u")%N then
              match r1 with
              | h1 :: h2 :: h3 :: h4 :: r2 =>
                  match hex4 h1 h2 h3 h4 with
                  | Some u => push_unit u (lex_string r2)
                  | None => None
                  end
              | _ => None
              end
            else
              match simple_escape e with
              | Some u => push_unit u (lex_string r1)
              | None => None
              end
        end
      else if (c <? 32)%N then None
      else push_unit c (lex_string r)
  end.

Fixpoint take_digits (s : jsstring) : list N * jsstring :=
  match s with
  | [] => ([], [])
  | c :: r =>
      match digit_value c with
      | Some d => let (ds, rest) := take_digits r in (d :: ds, rest)
      | None => ([], s)
      end
  end.

Definition digits_value (ds : list N) : N :=
  fold_left (fun acc d => (10 * acc + d)%N) ds 0%N.

(** The optional fraction: a dot and at least one digit. *)
Definition lex_fraction (s : jsstring) : option (list N * jsstring) :=
  match s with
  | c :: r =>
      if (c =? cu ".")%N then
        match take_digits r with
        | ([], _) => None
        | (ds, rest) => Some (ds, rest)
        end
      else Some ([], s)
  | [] => Some ([], [])
  end.

(** The optional exponent: [e] or [E], an optional sign, at least one digit. *)
Definition lex_exponent (s : jsstring) : option (Z * jsstring) :=
  match s with
  | c :: r =>
      if ((c =? cu "e") || (c =? cu "E"))%N then
        let (sign, r1) :=
          match r with
          | c2 :: r' =>
              if (c2 =? cu "-")%N then (-1, r')
              else if (c2 =? cu "+")%N then (1, r')
              else (1, r)
          | [] => (1, r)
          end in
        match take_digits r1 with
        | ([], _) => None
        | (ds, rest) => Some (sign * Z.of_N (digits_value ds), rest)
        end
      else Some (0, s)
  | [] => Some (0, [])
  end.

(** A number: an optional minus, an integer part without a superfluous
    leading zero, an optional fraction and an optional exponent. *)
Definition lex_number (s : jsstring) : option (number * jsstring) :=
  let (neg, s1) :=
    match s with
    | c :: r => if (c =? cu "-")%N then (true, r) else (false, s)
    | [] => (false, s)
    end in
  match s1 with
  | [] => None
  | c :: r =>
      match digit_value c with
      | None => None
      | Some d =>
          let (ints, s2) := if (d =? 0)%N then ([0%N], r) else take_digits s1 in
          match lex_fraction s2 with
          | None => None
          | Some (fracs, s3) =>
              match lex_exponent s3 with
              | None => None
              | Some (e, s4) =>
                  Some ({| negative := neg;
                           mantissa := digits_value (ints ++ fracs);
                           exponent10 := e - Z.of_nat (List.length fracs) |}, s4)
              end
          end
      end
  end.

(** [strip_prefix p s]: what follows [p] in [s], when [s] starts with [p]. *)
Fixpoint strip_prefix (p s : jsstring) : option jsstring :=
  match p, s with
  | [], _ => Some s
  | a :: p', b :: s' => if (a =? b)%N then strip_prefix p' s' else None
  | _ :: _, [] => None
  end.

Inductive parsed (A : Type) :=
| POk (a : A) (rest : jsstring)
| PSyntaxError
| POutOfFuel.
Arguments POk {A} a rest.
Arguments PSyntaxError {A}.
Arguments POutOfFuel {A}.

(** [parse_value] reads one value, after optional white space.
    [parse_elements] reads the elements of an array from its first element up
    to the closing bracket; [parse_members] reads the members of an object
    from its first key up to the closing brace. *)
Fixpoint parse_value (fuel : nat) (s : jsstring) {struct fuel} : parsed value :=
  match fuel with
  | O => POutOfFuel
  | S f =>
      match skip_ws s with
      | [] => PSyntaxError
      | c :: r =>
          if (c =? cu "{")%N then
            match skip_ws r with
            | c1 :: r1 =>
                if (c1 =? cu "}")%N then POk (VObject []) r1
                else
                  match parse_members f (c1 :: r1) with
                  | POk ms rest => POk (VObject ms) rest
                  | PSyntaxError => PSyntaxError
                  | POutOfFuel => POutOfFuel
                  end
            | [] => PSyntaxError
            end
          else if (c =? cu "[")%N then
            match skip_ws r with
            | c1 :: r1 =>
                if (c1 =? cu "]")%N then POk (VArray []) r1
                else
                  match parse_elements f (c1 :: r1) with
                  | POk vs rest => POk (VArray vs) rest
                  | PSyntaxError => PSyntaxError
                  | POutOfFuel => POutOfFuel
                  end
            | [] => PSyntaxError
            end
          else if (c =? 34%N)%N then
            match lex_string r with
            | Some (str, rest) => POk (VString str) rest
            | None => PSyntaxError
            end
          else if (c =? cu "t")%N then
            match strip_prefix (js "rue") r with
            | Some rest => POk (VBool true) rest
            | None => PSyntaxError
            end
          else if (c =? cu "f")%N then
            match strip_prefix (js "alse") r with
            | Some rest => POk (VBool false) rest
            | None => PSyntaxError
            end
          else if (c =? cu "n")%N then
            match strip_prefix (js "ull") r with
            | Some rest => POk VNull rest
            | None => PSyntaxError
            end
          else
            match lex_number (c :: r) with
            | Some (n, rest) => POk (VNumber n) rest
            | None => PSyntaxError
            end
      end
  end

with parse_elements (fuel : nat) (s : jsstring) {struct fuel} : parsed (list value) :=
  match fuel with
  | O => POutOfFuel
  | S f =>
      match parse_value f s with
      | POk v rest =>
          match skip_ws rest with
          | c :: r =>
              if (c =? cu "]")%N then POk [v] r
              else if (c =? cu ",")%N then
                match parse_elements f r with
                | POk vs rest' => POk (v :: vs) rest'
                | PSyntaxError => PSyntaxError
                | POutOfFuel => POutOfFuel
                end
              else PSyntaxError
          | [] => PSyntaxError
          end
      | PSyntaxError => PSyntaxError
      | POutOfFuel => POutOfFuel
      end
  end

with parse_members (fuel : nat) (s : jsstring) {struct fuel} :
  parsed (list (jsstring * value)) :=
  match fuel with
  | O => POutOfFuel
  | S f =>
      match skip_ws s with
      | c :: r =>
          if (c =? 34%N)%N then
            match lex_string r with
            | Some (key, r1) =>
                match skip_ws r1 with
                | c2 :: r2 =>
                    if (c2 =? cu ":")%N then
                      match parse_value f r2 with
                      | POk v rest =>
                          match skip_ws rest with
                          | c3 :: r3 =>
                              if (c3 =? cu "}")%N then POk [(key, v)] r3
                              else if (c3 =? cu ",")%N then
                                match parse_members f r3 with
                                | POk ms rest' => POk ((key, v) :: ms) rest'
                                | PSyntaxError => PSyntaxError
                                | POutOfFuel => POutOfFuel
                                end
                              else PSyntaxError
                          | [] => PSyntaxError
                          end
                      | PSyntaxError => PSyntaxError
                      | POutOfFuel => POutOfFuel
                      end
                    else PSyntaxError
                | [] => PSyntaxError
                end
            | None => PSyntaxError
            end
          else PSyntaxError
      | [] => PSyntaxError
      end
  end.

Definition parse_fuel (s : jsstring) : nat := 2 * List.length s + 2.

(** [JSON.parse(s)]: the value of the text, or a [SyntaxError] when the text
    is not a JSON value surrounded by optional white space. *)
Definition JSON_parse (s : jsstring) : outcome value :=
  match parse_value (parse_fuel s) s with
  | POk v rest => match skip_ws rest with [] => Returned v | _ => Thrown SyntaxError end
  | _ => Thrown SyntaxError
  end.


(* ================================================================== *)
(** ** Effects: requests, timers and the console *)

(** The object [JSON.stringify] is applied to for the request body:
    [{ contents: [{ parts: [{ text: prompt }] }], safetySettings }], where
    [prompt] is a string. *)
Record request_body := {
  contents_text : jsstring;
  safetySettings : option (list (jsstring * jsstring))
}.

(** The second argument of [fetch]. *)
Record request_init := {
  method : jsstring;
  headers : list (jsstring * jsstring);
  body : request_body
}.

Record request := { url : jsstring; init : request_init }.

(** What the source reads of a [Response]: [status], [ok], [text()] and
    [json()]. *)
Record response := { status : Z; body_text : jsstring }.

Definition ok (r : response) : bool := (200 <=? status r) && (status r <? 300).

Inductive console_method := log | warn | error.

Inductive event :=
| Request (r : request)
| Sleep (ms : Z)
| Console (m : console_method) (args : list jsstring).

Definition trace := list event.

Fixpoint requests_of (t : trace) : list request :=
  match t with
  | [] => []
  | Request r :: t' => r :: requests_of t'
  | _ :: t' => requests_of t'
  end.

Fixpoint sleeps_of (t : trace) : list Z :=
  match t with
  | [] => []
  | Sleep ms :: t' => ms :: sleeps_of t'
  | _ :: t' => sleeps_of t'
  end.

(** The answer of the network to a request, given the requests issued
    before it (oldest first): a response, or a rejection of the promise. *)
Inductive fetch_result :=
| Responds (r : response)
| Rejects (message : jsstring).

Definition transport := list request -> request -> fetch_result.

(** Computations that may throw and that extend the trace. *)
Definition M (A : Type) := trace -> outcome A * trace.

Definition ret {A} (a : A) : M A := fun t => (Returned a, t).

Definition throw {A} (e : exn) : M A := fun t => (Thrown e, t).

Definition bind {A B} (m : M A) (k : A -> M B) : M B :=
  fun t =>
    match m t with
    | (Returned a, t') => k a t'
    | (Thrown e, t') => (Thrown e, t')
    end.

(** [try { m } catch (err) { h err }]. *)
Definition try_catch {A} (m : M A) (h : exn -> M A) : M A :=
  fun t =>
    match m t with
    | (Returned a, t') => (Returned a, t')
    | (Thrown e, t') => h e t'
    end.

Definition lift {A} (o : outcome A) : M A := fun t => (o, t).

Definition emit (e : event) : M unit := fun t => (Returned tt, t ++ [e]).

Declare Scope js_scope.
Delimit Scope js_scope with js.
Notation "x <- m ;; k" := (bind m (fun x => k))
  (at level 61, m at next level, right associativity) : js_scope.
Notation "m ;; k" := (bind m (fun _ => k))
  (at level 61, right associativity) : js_scope.
Open Scope js_scope.

Definition console (m : console_method) (args : list jsstring) : M unit :=
  emit (Console m args).

(** [await new Promise(r => setTimeout(r, delay))]. *)
Definition sleep (delay : Z) : M unit := emit (Sleep delay).

(** [await fetch(url, options)] over the transport [net]. *)
Definition fetch (net : transport) (u : jsstring) (options : request_init) : M response :=
  fun t =>
    let r := {| url := u; init := options |} in
    match net (requests_of t) r with
    | Responds resp => (Returned resp, t ++ [Request r])
    | Rejects msg => (Thrown (FetchError msg), t ++ [Request r])
    end.

(** [await response.json()]. *)
Definition json (r : response) : M value := lift (JSON_parse (body_text r)).

(** [await response.text()]. *)
Definition text (r : response) : M jsstring := ret (body_text r).

(** [err.message]; [engine] gives the wording of the engine's own errors. *)
Definition message_of (engine : runtime) (e : exn) : jsstring :=
  match e with
  | Error m => m
  | FetchError m => m
  | _ => wording engine e
  end.

(** Method calls on the value the extractor is given: a string has all
    three methods, an array has [indexOf] and [lastIndexOf] (comparing with
    [===]), any other value has none of them. *)
Definition is_string (s : jsstring) (v : value) : bool :=
  match v with
  | VString s' => jsstring_eqb s s'
  | _ => false
  end.

Fixpoint array_index_from (x : jsstring) (l : list value) (i : Z) : Z :=
  match l with
  | [] => -1
  | v :: r => if is_string x v then i else array_index_from x r (i + 1)
  end.

Fixpoint array_last_index_from (x : jsstring) (l : list value) (i found : Z) : Z :=
  match l with
  | [] => found
  | v :: r => array_last_index_from x r (i + 1) (if is_string x v then i else found)
  end.

Definition call_indexOf (v : value) (c : code_unit) : outcome Z :=
  match v with
  | VString s => Returned (indexOf s c)
  | VArray l => Returned (array_index_from [c] l 0)
  | _ => Thrown TypeError
  end.

Definition call_lastIndexOf (v : value) (c : code_unit) : outcome Z :=
  match v with
  | VString s => Returned (lastIndexOf s c)
  | VArray l => Returned (array_last_index_from [c] l 0 (-1))
  | _ => Thrown TypeError
  end.

Definition call_substring (v : value) (a b : Z) : outcome jsstring :=
  match v with
  | VString s => Returned (substring s a b)
  | _ => Thrown TypeError
  end.

(** [for (const model of MODELS) { ... }] around a body that either assigns
    the result variable and breaks ([Some]), or completes ([None]).  The
    loop yields the final content of the variable. *)
Fixpoint for_of (iteration : jsstring -> M (option value)) (MODELS : list jsstring)
  (variable : value) : M value :=
  match MODELS with
  | [] => ret variable
  | model :: rest =>
      r <- iteration model ;;
      match r with
      | Some v => ret v
      | None => for_of iteration rest variable
      end
  end.

(** [`.../models/${model}:generateContent?key=${API_KEY}`]. *)
Definition api_url (model API_KEY : jsstring) : jsstring :=
  js "https://generativelanguage.googleapis.com/v1beta/models/" ++ model
  ++ js ":generateContent?key=" ++ API_KEY.

(** [process.env.GOOGLE_API_KEY] is a string or [undefined]; [!API_KEY]
    holds when it is [undefined] or empty. *)
Definition key_missing (k : option jsstring) : bool :=
  match k with
  | Some (_ :: _) => false
  | _ => true
  end.

Definition key_string (k : option jsstring) : jsstring :=
  match k with
  | Some s => s
  | None => js "undefined"
  end.

(** [req.body.topic || req.body.prompt]. *)
Definition select_topic (req_body : value) : outcome value :=
  let! t := get req_body (js "topic") in
  if ToBoolean t then Returned t else get req_body (js "prompt").

(** What the handler sends: the status code and the text of the body. *)
Record reply := { code : Z; payload : jsstring }.

(** [res.status(status).json(v)]: the body is [JSON.stringify(v)], which
    may throw; it is empty when [v] is [undefined]. *)
Definition sent (body : option jsstring) : jsstring :=
  match body with
  | Some s => s
  | None => []
  end.

Definition res_json (engine : runtime) (status : Z) (v : value) : M reply :=
  body <- lift (JSON_stringify engine v) ;;
  ret {| code := status; payload := sent body |}.

Arguments res_json : simpl never.

(** The text of [{ error: message }]. *)
Definition error_body (message : jsstring) : jsstring :=
  js "{" ++ QuoteJSONString (js "error") ++ js ":" ++ QuoteJSONString message ++ js "}".

(** [data.candidates[0].content.parts[0].text]. *)
Definition envelope_text (data : value) : outcome value :=
  let! candidates := get data (js "candidates") in
  let! candidate := get0 candidates in
  let! content := get candidate (js "content") in
  let! parts := get content (js "parts") in
  let! part := get0 parts in
  get part (js "text").

(** [data?.candidates?.[0]?.content?.parts?.[0]?.text]. *)
Definition envelope_text_opt (data : value) : value :=
  get_opt (get0_opt (get_opt (get_opt (get0_opt (get_opt data (js "candidates")))
    (js "content")) (js "parts"))) (js "text").

(** The lines of a template literal, joined by line feeds. *)
Fixpoint lines (l : list jsstring) : jsstring :=
  match l with
  | [] => []
  | [x] => x
  | x :: r => x ++ [10%N] ++ lines r
  end.

(* ================================================================== *)
(** ** [src/server.js] *)

Module ServerJs.
Section Host.
Variable net : transport.
Variable engine : runtime.

(** [function extractJSON(text)], lines 27-39: every exception raised in
    the [try] block, the [Error("JSON not found")] included, is replaced by
    the one of the [catch] block. *)
Definition extractJSON (text : value) : outcome value :=
  otry
    (let! start := call_indexOf text (cu "{") in
     let! end_ := call_lastIndexOf text (cu "}") in
     if (start =? -1) || (end_ =? -1) then Thrown (Error (js "JSON not found"))
     else
       let! jsonString := call_substring text start (end_ + 1) in
       JSON_parse jsonString)
    (fun _ => Thrown (Error (js "Failed to parse JSON from AI response."))).

(** The body of [for (let i = 0; i < retries; i++)], lines 46-65;
    [remaining] counts the iterations left, [retries - i]. *)
Fixpoint retry_loop (u : jsstring) (options : request_init) (retries delay : Z)
  (remaining : nat) (i : Z) : M response :=
  match remaining with
  | O => throw (Error (js "Model overloaded after multiple retries."))
  | S k =>
      response <- fetch net u options ;;
      if ok response then ret response
      else if status response =? 429 then
        body <- text response ;;
        console error [[55357; 57003]%N ++ js " Quota exceeded:"; body] ;;
        throw (Error (js "Quota exceeded. Please try again later."))
      else if status response =? 503 then
        console warn [[9888; 65039]%N ++ js " Model overloaded (" ++ decimal (i + 1)
                      ++ js "/" ++ decimal retries ++ js "), retrying..."] ;;
        sleep delay ;;
        retry_loop u options retries delay k (i + 1)
      else
        errorBody <- text response ;;
        throw (Error (js "Google API failed (" ++ decimal (status response)
                      ++ js "): " ++ errorBody))
  end.

(** [async function fetchWithRetry(url, options, retries = 3, delay = 2000)]. *)
Definition fetchWithRetry (u : jsstring) (options : request_init)
  (retries delay : Z) : M response :=
  retry_loop u options retries delay (Z.to_nat retries) 0.

Definition MODELS : list jsstring :=
  [js "gemini-3.0"; js "gemini-2.5-flash-lite"; js "gemini-2.5-flash"; js "gemini-2.5-pro"].

(** The template literal of lines 98-107 around the text of [${topic}]. *)
Definition template (topic_text : jsstring) : jsstring :=
  lines [ [];
          js "You are an expert web developer.";
          jsq "Generate a complete modern single-page website for topic: '" ]
  ++ topic_text
  ++ lines [ jsq "'";
             [];
             js "Return ONLY valid JSON:";
             jsq "{'html':'...','css':'...','js':'...'}";
             [];
             js "Each section must be at least 50 lines.";
             js "No markdown. No explanation.";
             [] ].

(** [const prompt = `...${topic}...`]: the literal converts [topic] to a
    string, which throws for some objects and arrays. *)
Definition prompt (topic : value) : outcome jsstring :=
  let! topic_text := ToString engine topic in
  Returned (template topic_text).

(** The second argument of the call of [fetchWithRetry], lines 118-130. *)
Definition options (prompt : jsstring) : request_init :=
  {| method := js "POST";
     headers := [(js "Content-Type", js "application/json")];
     body :=
       {| contents_text := prompt;
          safetySettings :=
            Some [ (js "HARM_CATEGORY_HARASSMENT", js "BLOCK_NONE");
                   (js "HARM_CATEGORY_HATE_SPEECH", js "BLOCK_NONE");
                   (js "HARM_CATEGORY_SEXUALLY_EXPLICIT", js "BLOCK_NONE");
                   (js "HARM_CATEGORY_DANGEROUS_CONTENT", js "BLOCK_NONE") ] |} |}.

(** The [try] block of the loop body, lines 118-143, up to the [break]. *)
Definition attempt (API_KEY prompt model : jsstring) : M value :=
  response <- fetchWithRetry (api_url model API_KEY) (options prompt) 3 2000 ;;
  data <- json response ;;
  if negb (ToBoolean (envelope_text_opt data)) then
    throw (Error (js "Invalid Gemini response structure."))
  else
    generated <- lift (envelope_text data) ;;
    finalResponse <- lift (extractJSON generated) ;;
    console log [[9989%N] ++ js " Success using model: " ++ model] ;;
    ret finalResponse.

(** One iteration of [for (const model of MODELS)], lines 111-148. *)
Definition iteration (API_KEY prompt model : jsstring) : M (option value) :=
  console log [[55357; 56633]%N ++ js " Trying model: " ++ model] ;;
  try_catch
    (finalResponse <- attempt API_KEY prompt model ;; ret (Some finalResponse))
    (fun err =>
       console error [[10060%N] ++ js " " ++ model ++ js " failed: " ++ message_of engine err] ;;
       ret None).

(** Lines 109-154: the loop over the models and the test of its result. *)
Definition orchestrate (models : list jsstring) (API_KEY prompt : jsstring) : M value :=
  finalResponse <- for_of (iteration API_KEY prompt) models VNull ;;
  if negb (ToBoolean finalResponse) then
    throw (Error (js "All Gemini models are unavailable or quota exhausted."))
  else ret finalResponse.

(** The handler of [app.post("/generate", ...)], lines 71-162, over the
    model list [models], the environment variable [GOOGLE_API_KEY] and
    [req.body].  The prompt is built once, before the loop; the conversion
    of the topic and the serialization of the result are inside the outer
    [try]. *)
Definition post_generate (models : list jsstring) (GOOGLE_API_KEY : option jsstring)
  (req_body : value) : M reply :=
  try_catch
    (topic <- lift (select_topic req_body) ;;
     if key_missing GOOGLE_API_KEY then
       throw (Error (js "GOOGLE_API_KEY missing in .env"))
     else if negb (ToBoolean topic) then
       res_json engine 400 (VObject [(js "error", VString (js "Topic or prompt is required."))])
     else
       prompt_text <- lift (prompt topic) ;;
       finalResponse <- orchestrate models (key_string GOOGLE_API_KEY) prompt_text ;;
       res_json engine 200 finalResponse)
    (fun error_ =>
       console error [[10060%N] ++ js " Generation error:"; message_of engine error_] ;;
       res_json engine 503 (VObject [(js "error", VString (message_of engine error_))])).

Definition app_post_generate := post_generate MODELS.
End Host.
End ServerJs.

(* ================================================================== *)
(** ** [src/unnamed/part_000] *)

Module Part000.
Section Host.
Variable net : transport.
Variable engine : runtime.

(** [function extractJSON(text)], lines 36-43. *)
Definition extractJSON (text : value) : outcome value :=
  let! start := call_indexOf text (cu "{") in
  let! end_ := call_lastIndexOf text (cu "}") in
  if (start =? -1) || (end_ =? -1) then
    Thrown (Error (js "JSON not found in AI response"))
  else
    let! jsonString := call_substring text start (end_ + 1) in
    JSON_parse jsonString.

(** The body of [for (let i = 0; i < retries; i++)], lines 49-64;
    [remaining] counts the iterations left, [retries - i]. *)
Fixpoint retry_loop (u : jsstring) (options : request_init) (retries delay : Z)
  (remaining : nat) (i : Z) : M response :=
  match remaining with
  | O => throw (Error (js "Model overloaded after retries"))
  | S k =>
      response <- fetch net u options ;;
      if ok response then ret response
      else if status response =? 429 then
        throw (Error (js "Quota exceeded. Try again later."))
      else if status response =? 503 then
        sleep delay ;;
        retry_loop u options retries delay k (i + 1)
      else
        throw (Error (js "Google API error " ++ decimal (status response)))
  end.

(** [async function fetchWithRetry(url, options, retries = 3, delay = 2000)]. *)
Definition fetchWithRetry (u : jsstring) (options : request_init)
  (retries delay : Z) : M response :=
  retry_loop u options retries delay (Z.to_nat retries) 0.

Definition MODELS : list jsstring :=
  [js "gemini-2.5-flash-lite"; js "gemini-2.5-flash"; js "gemini-2.5-pro"].

(** The template literal of lines 85-91 around the text of [${topic}]. *)
Definition template (topic_text : jsstring) : jsstring :=
  lines [ [];
          js "You are an expert web developer.";
          jsq "Generate a modern single-page website for: '" ]
  ++ topic_text
  ++ lines [ jsq "'";
             [];
             js "Return ONLY valid JSON:";
             jsq "{'html':'...','css':'...','js':'...'}";
             [] ].

(** [const prompt = `...${topic}...`]: the literal converts [topic] to a
    string, which throws for some objects and arrays. *)
Definition prompt (topic : value) : outcome jsstring :=
  let! topic_text := ToString engine topic in
  Returned (template topic_text).

(** The second argument of the call of [fetchWithRetry], lines 99-105. *)
Definition options (prompt : jsstring) : request_init :=
  {| method := js "POST";
     headers := [(js "Content-Type", js "application/json")];
     body := {| contents_text := prompt; safetySettings := None |} |}.

(** The [try] block of the loop body, lines 97-112, up to the [break]. *)
Definition attempt (API_KEY prompt model : jsstring) : M value :=
  response <- fetchWithRetry (api_url model API_KEY) (options prompt) 3 2000 ;;
  data <- json response ;;
  generated <- lift (envelope_text data) ;;
  lift (extractJSON generated).

(** One iteration of [for (const model of MODELS)], lines 95-117. *)
Definition iteration (API_KEY prompt model : jsstring) : M (option value) :=
  try_catch
    (result <- attempt API_KEY prompt model ;; ret (Some result))
    (fun err =>
       console warn [[9888; 65039]%N ++ js " " ++ model ++ js " failed"] ;;
       ret None).

(** Lines 93-121: the loop over the models and the test of its result. *)
Definition orchestrate (models : list jsstring) (API_KEY prompt : jsstring) : M value :=
  result <- for_of (iteration API_KEY prompt) models VNull ;;
  if negb (ToBoolean result) then
    throw (Error (js "All Gemini models unavailable or quota exhausted"))
  else ret result.

(** The handler of [app.post("/generate", ...)], lines 71-128.  The prompt
    is built once, before the loop; the conversion of the topic and the
    serialization of the result are inside the outer [try]. *)
Definition post_generate (models : list jsstring) (GOOGLE_API_KEY : option jsstring)
  (req_body : value) : M reply :=
  try_catch
    (topic <- lift (select_topic req_body) ;;
     if key_missing GOOGLE_API_KEY then
       throw (Error (js "GOOGLE_API_KEY missing"))
     else if negb (ToBoolean topic) then
       res_json engine 400 (VObject [(js "error", VString (js "Prompt required"))])
     else
       prompt_text <- lift (prompt topic) ;;
       result <- orchestrate models (key_string GOOGLE_API_KEY) prompt_text ;;
       res_json engine 200 result)
    (fun err =>
       res_json engine 503 (VObject [(js "error", VString (message_of engine err))])).

Definition app_post_generate := post_generate MODELS.
End Host.
End Part000.

(* ================================================================== *)
(** ** Vocabulary of the properties

    The two source files are variants of one program; a property is stated
    once, for a file [f]. *)

Inductive source_file := server_js | part_000.

Definition extractJSON_of (f : source_file) : value -> outcome value :=
  match f with
  | server_js => ServerJs.extractJSON
  | part_000 => Part000.extractJSON
  end.

Definition fetchWithRetry_of (f : source_file) (net : transport) :
  jsstring -> request_init -> Z -> Z -> M response :=
  match f with
  | server_js => ServerJs.fetchWithRetry net
  | part_000 => Part000.fetchWithRetry net
  end.

Definition options_of (f : source_file) : jsstring -> request_init :=
  match f with
  | server_js => ServerJs.options
  | part_000 => Part000.options
  end.

Definition iteration_of (f : source_file) (net : transport) (engine : runtime) :
  jsstring -> jsstring -> jsstring -> M (option value) :=
  match f with
  | server_js => ServerJs.iteration net engine
  | part_000 => Part000.iteration net
  end.

Definition orchestrate_of (f : source_file) (net : transport) (engine : runtime) :
  list jsstring -> jsstring -> jsstring -> M value :=
  match f with
  | server_js => ServerJs.orchestrate net engine
  | part_000 => Part000.orchestrate net
  end.

(** The prompt of the handler for a topic. *)
Definition prompt_of (f : source_file) (engine : runtime) : value -> outcome jsstring :=
  match f with
  | server_js => ServerJs.prompt engine
  | part_000 => Part000.prompt engine
  end.

Definition post_generate_of (f : source_file) (net : transport) (engine : runtime) :
  list jsstring -> option jsstring -> value -> M reply :=
  match f with
  | server_js => ServerJs.post_generate net engine
  | part_000 => Part000.post_generate net engine
  end.

(** The errors of the retrying fetcher, by the branch that throws them. *)
Definition TransientExhausted (f : source_file) : exn :=
  match f with
  | server_js => Error (js "Model overloaded after multiple retries.")
  | part_000 => Error (js "Model overloaded after retries")
  end.

Definition QuotaExceeded (f : source_file) : exn :=
  match f with
  | server_js => Error (js "Quota exceeded. Please try again later.")
  | part_000 => Error (js "Quota exceeded. Try again later.")
  end.

Definition UpstreamError (f : source_file) (r : response) : exn :=
  match f with
  | server_js =>
      Error (js "Google API failed (" ++ decimal (status r) ++ js "): " ++ body_text r)
  | part_000 => Error (js "Google API error " ++ decimal (status r))
  end.

(** The error of the handler when the loop leaves its variable falsy. *)
Definition AllModelsExhausted (f : source_file) : exn :=
  match f with
  | server_js => Error (js "All Gemini models are unavailable or quota exhausted.")
  | part_000 => Error (js "All Gemini models unavailable or quota exhausted")
  end.

(** The message of the 400 reply. *)
Definition topic_required (f : source_file) : jsstring :=
  match f with
  | server_js => js "Topic or prompt is required."
  | part_000 => js "Prompt required"
  end.

(** The error of the extractor for a text without a brace. *)
Definition ParseError_not_found (f : source_file) : exn :=
  match f with
  | server_js => Error (js "Failed to parse JSON from AI response.")
  | part_000 => Error (js "JSON not found in AI response")
  end.

(** The error of the extractor for a span that is not a JSON text. *)
Definition ParseError_invalid (f : source_file) : exn :=
  match f with
  | server_js => Error (js "Failed to parse JSON from AI response.")
  | part_000 => SyntaxError
  end.

(** The request of the handler for one model. *)
Definition request_for (f : source_file) (API_KEY prompt model : jsstring) : request :=
  {| url := api_url model API_KEY; init := options_of f prompt |}.

(** The prompt that a request carries. *)
Definition prompt_in (r : request) : jsstring := contents_text (body (init r)).

(** The trace at the call of the fetcher, in the iteration for [model] that
    starts at [t]: [server.js] has logged the model by then. *)
Definition at_fetch (f : source_file) (model : jsstring) (t : trace) : trace :=
  match f with
  | server_js => t ++ [Console log [[55357; 56633]%N ++ js " Trying model: " ++ model]]
  | part_000 => t
  end.

(** [failing it models t]: the trace after the iterations for [models], run
    in order from [t], when each of them completes without a result. *)
Fixpoint failing (it : jsstring -> M (option value)) (models : list jsstring)
  (t : trace) : option trace :=
  match models with
  | [] => Some t
  | model :: rest =>
      match it model t with
      | (Returned None, t') => failing it rest t'
      | _ => None
      end
  end.

(** The shape [{ html: string, css: string, js: string }]. *)
Definition ExtractedSite (v : value) : Prop :=
  exists ms h c j,
    v = VObject ms
    /\ own_property (js "html") ms = Some (VString h)
    /\ own_property (js "css") ms = Some (VString c)
    /\ own_property (js "js") ms = Some (VString j).

(** The bursts of requests of consecutive attempts: [n] equal requests for
    each model, for the counts [ns]. *)
Fixpoint bursts (f : source_file) (API_KEY prompt : jsstring)
  (models : list jsstring) (ns : list nat) : list request :=
  match models, ns with
  | model :: models', n :: ns' =>
      repeat (request_for f API_KEY prompt model) n ++ bursts f API_KEY prompt models' ns'
  | _, _ => []
  end.

(** [issues P m]: running [m] extends the trace, by events that satisfy [P]. *)
Definition issues {A} (P : event -> Prop) (m : M A) : Prop :=
  forall t, exists d, snd (m t) = t ++ d /\ Forall P d.

(** An event that, when it is a request, satisfies [Q]. *)
Definition request_is (Q : request -> Prop) (e : event) : Prop :=
  match e with
  | Request r => Q r
  | _ => True
  end.

(** Computations that issue no request. *)
Definition quiet {A} (m : M A) : Prop := issues (request_is (fun _ => False)) m.

(** A provider envelope around a generated text, and the transport that
    answers every request with it. *)
Definition envelope_around (generated : jsstring) : jsstring :=
  jsq "{'candidates':[{'content':{'parts':[{'text':'" ++ generated ++ jsq "'}]}}]}".

Definition always (r : response) : transport := fun _ _ => Responds r.

(** An engine for the examples, none of which has the engine write a
    finite nonzero Number: its errors have no message, and its built-ins
    take a thousand levels of nesting. *)
Definition silent_engine : runtime :=
  {| wording := fun _ => [];
     number_text := fun _ => [];
     join_depth := 1000;
     stringify_depth := 1000 |}.

(** The transport that is overloaded for the first [n] requests and answers
    [r] afterwards. *)
Definition overloaded_first (n : nat) (r : response) : transport :=
  fun earlier _ =>
    if (List.length earlier <? n)%nat
    then Responds {| status := 503; body_text := js "overloaded" |}
    else Responds r.

Definition sample_init : request_init := ServerJs.options (ServerJs.template (js "cats")).

(** The transport on which the model [down] answers 500 and every other
    model answers [r]. *)
Definition one_model_down (down key : jsstring) (r : response) : transport :=
  fun _ req =>
    if jsstring_eqb (url req) (api_url down key)
    then Responds {| status := 500; body_text := js "internal" |}
    else Responds r.

(** The transport on which the model [first] answers [r] and every other
    model answers [other]. *)
Definition answers_by_model (first key : jsstring) (r other : response) : transport :=
  fun _ req =>
    if jsstring_eqb (url req) (api_url first key) then Responds r else Responds other.

(** The text [{"html":"a","css":"b","js":"c"}] as it stands inside a JSON
    string, and its value. *)
Definition escaped_site : jsstring :=
  jsq "{\'html\':\'a\',\'css\':\'b\',\'js\':\'c\'}".

Definition site_abc : value :=
  VObject [ (js "html", VString (js "a"));
            (js "css", VString (js "b"));
            (js "js", VString (js "c")) ].

(** The transport on which the model [A] generates the text [{}] and every
    other model the site above, for the key [secret]. *)
Definition empty_then_site : transport :=
  answers_by_model (js "A") (js "secret")
    {| status := 200; body_text := envelope_around (js "{}") |}
    {| status := 200; body_text := envelope_around escaped_site |}.

Definition body_with_topic (topic : value) : value := VObject [(js "topic", topic)].

(** The number [1e999], which rounds to [Infinity]. *)
Definition beyond_range : number := {| negative := false; mantissa := 1; exponent10 := 999 |}.

(** The transport whose every answer is a success with the generated text
    [} null {]. *)
Definition null_between_braces : transport :=
  always {| status := 200; body_text := envelope_around (js "} null {") |}.

(** The loop of the fetcher of either file. *)
Definition retry_loop_of (f : source_file) (net : transport) :
  jsstring -> request_init -> Z -> Z -> nat -> Z -> M response :=
  match f with
  | server_js => ServerJs.retry_loop net
  | part_000 => Part000.retry_loop net
  end.

(** What the fetcher makes of an answer that is not a 503 response: the
    [return] or the [throw] of the branch the answer takes. *)
Definition verdict (f : source_file) (a : fetch_result) : outcome response :=
  match a with
  | Rejects msg => Thrown (FetchError msg)
  | Responds resp =>
      if ok resp then Returned resp
      else if status resp =? 429 then Thrown (QuotaExceeded f)
      else Thrown (UpstreamError f resp)
  end.

(** An answer that is a response with status 503. *)
Definition overloaded (a : fetch_result) : Prop :=
  exists resp, a = Responds resp /\ status resp = 503.

(** The message of the handler for a missing credential. *)
Definition credential_missing (f : source_file) : jsstring :=
  match f with
  | server_js => js "GOOGLE_API_KEY missing in .env"
  | part_000 => js "GOOGLE_API_KEY missing"
  end.

(** The message of the all-models error. *)
Definition exhausted_message (f : source_file) : jsstring :=
  match f with
  | server_js => js "All Gemini models are unavailable or quota exhausted."
  | part_000 => js "All Gemini models unavailable or quota exhausted"
  end.

(** What the [try] block of an iteration makes of the response it fetched:
    [extractJSON((await response.json()).candidates[0].content.parts[0].text)]. *)
Definition generated_value (f : source_file) (resp : response) : outcome value :=
  let! data := JSON_parse (body_text resp) in
  let! generated := envelope_text data in
  extractJSON_of f generated.

(* ================================================================== *)
(** ** Strings: [indexOf], [lastIndexOf], [substring] *)

Lemma index_from_range c s i :
  index_from c s i = -1 \/ i <= index_from c s i < i + Z.of_nat (List.length s).
Proof.
  revert i; induction s as [|x r IH]; intros i; simpl; [now left|].
  destruct (x =? c)%N.
  - right; lia.
  - destruct (IH (i + 1)) as [H|H]; [now left | right; lia].
Qed.

Lemma index_from_absent c s i :
  0 <= i -> (index_from c s i = -1 <-> ~ In c s).
Proof.
  revert i; induction s as [|x r IH]; intros i Hi; simpl.
  - tauto.
  - destruct (N.eqb_spec x c) as [->|Hne].
    + split; [lia | intros H; exfalso; apply H; now left].
    + rewrite (IH (i + 1)) by lia. split.
      * intros H [E|E]; [congruence | tauto].
      * intros H E; apply H; now right.
Qed.

Lemma index_from_nth c s i :
  index_from c s i <> -1 -> 0 <= i ->
  nth_error s (Z.to_nat (index_from c s i - i)) = Some c.
Proof.
  revert i; induction s as [|x r IH]; intros i Hne Hi; simpl in *; [congruence|].
  destruct (N.eqb_spec x c) as [->|Hxc].
  - now rewrite Z.sub_diag.
  - specialize (IH (i + 1) Hne ltac:(lia)).
    destruct (index_from_range c r (i + 1)) as [H|H]; [congruence|].
    replace (Z.to_nat (index_from c r (i + 1) - i))
      with (S (Z.to_nat (index_from c r (i + 1) - (i + 1)))) by lia.
    exact IH.
Qed.

Lemma last_index_from_range c s i found :
  last_index_from c s i found = found
  \/ i <= last_index_from c s i found < i + Z.of_nat (List.length s).
Proof.
  revert i found; induction s as [|x r IH]; intros i found; simpl; [now left|].
  destruct (x =? c)%N.
  - destruct (IH (i + 1) i) as [H|H]; right; lia.
  - destruct (IH (i + 1) found) as [H|H]; [now left | right; lia].
Qed.

Lemma last_index_from_absent c s i found :
  found < i -> (last_index_from c s i found = found <-> ~ In c s).
Proof.
  revert i found; induction s as [|x r IH]; intros i found Hlt; simpl.
  - tauto.
  - destruct (N.eqb_spec x c) as [->|Hne].
    + split; [|intros H; exfalso; apply H; now left].
      intros H. destruct (last_index_from_range c r (i + 1) i); lia.
    + rewrite (IH (i + 1) found) by lia. split.
      * intros H [E|E]; [congruence | tauto].
      * intros H E; apply H; now right.
Qed.

Lemma indexOf_absent s c : indexOf s c = -1 <-> ~ In c s.
Proof. apply index_from_absent; lia. Qed.

Lemma lastIndexOf_absent s c : lastIndexOf s c = -1 <-> ~ In c s.
Proof. apply last_index_from_absent; lia. Qed.

Lemma indexOf_found s c :
  indexOf s c <> -1 ->
  0 <= indexOf s c < Z.of_nat (List.length s)
  /\ nth_error s (Z.to_nat (indexOf s c)) = Some c.
Proof.
  intros H. unfold indexOf in *. split.
  - destruct (index_from_range c s 0); [congruence | lia].
  - rewrite <- (Z.sub_0_r (index_from c s 0)) at 1. apply index_from_nth; [assumption | lia].
Qed.

Lemma lastIndexOf_found s c :
  lastIndexOf s c <> -1 -> 0 <= lastIndexOf s c < Z.of_nat (List.length s).
Proof.
  intros H. unfold lastIndexOf in *.
  destruct (last_index_from_range c s 0 (-1)); [congruence | lia].
Qed.

Lemma skipn_nth_error {A} (l : list A) n x :
  nth_error l n = Some x -> skipn n l = x :: skipn (S n) l.
Proof.
  revert n; induction l as [|y l IH]; intros [|n] H; simpl in *; try discriminate.
  - now inversion H.
  - now apply IH.
Qed.

(** The span from [a] to [e], both inside the string, starts with the unit
    at [a]. *)
Lemma substring_head s a e c :
  0 <= a <= e -> e < Z.of_nat (List.length s) ->
  nth_error s (Z.to_nat a) = Some c ->
  exists r, substring s a (e + 1) = c :: r.
Proof.
  intros Hae He Hn. unfold substring.
  rewrite (Z.max_l a 0), (Z.max_l (e + 1) 0) by lia.
  rewrite (Z.min_l a), (Z.min_l (e + 1)) by lia.
  rewrite (Z.min_l a (e + 1)), (Z.max_r a (e + 1)) by lia.
  rewrite (skipn_nth_error _ _ _ Hn).
  replace (Z.to_nat (e + 1 - a)) with (S (Z.to_nat (e - a))) by lia.
  simpl. eauto.
Qed.

(* ================================================================== *)
(** ** [JSON.parse] *)

(** A text that starts with an opening brace denotes an object, if it
    denotes anything. *)
Lemma JSON_parse_brace r v :
  JSON_parse (cu "{" :: r) = Returned v -> exists ms, v = VObject ms.
Proof.
  unfold JSON_parse, parse_fuel.
  replace (2 * List.length (cu "{" :: r) + 2)%nat
    with (S (2 * List.length (cu "{" :: r) + 1)) by lia.
  set (k := (2 * List.length (cu "{" :: r) + 1)%nat).
  change (parse_value (S k) (cu "{" :: r)) with
    (match skip_ws r with
     | c1 :: r1 =>
         if (c1 =? cu "}")%N then POk (VObject []) r1
         else
           match parse_members k (c1 :: r1) with
           | POk ms rest => POk (VObject ms) rest
           | PSyntaxError => PSyntaxError
           | POutOfFuel => POutOfFuel
           end
     | [] => PSyntaxError
     end).
  destruct (skip_ws r) as [|c1 r1]; [discriminate|].
  destruct (c1 =? cu "}")%N.
  - destruct (skip_ws r1); intros H; inversion H; eauto.
  - destruct (parse_members k (c1 :: r1)) as [ms rest| |]; try discriminate.
    destruct (skip_ws rest); intros H; inversion H; eauto.
Qed.

Lemma JSON_parse_throws s e : JSON_parse s = Thrown e -> e = SyntaxError.
Proof.
  unfold JSON_parse.
  destruct (parse_value (parse_fuel s) s) as [v rest| |]; try (intros H; now inversion H).
  destruct (skip_ws rest); intros H; now inversion H.
Qed.

(* ================================================================== *)
(** ** [JSON.parse]: the fuel is enough *)

Lemma skip_ws_le s r : skip_ws s = r -> (List.length r <= List.length s)%nat.
Proof.
  intros <-. induction s as [|c s IH]; simpl; [lia|].
  destruct (is_ws c); simpl; lia.
Qed.

Lemma push_unit_some c o str rest :
  push_unit c o = Some (str, rest) -> exists str', o = Some (str', rest).
Proof. destruct o as [[s' r']|]; simpl; intros H; inversion H; eauto. Qed.

Lemma lex_string_lt s str rest :
  lex_string s = Some (str, rest) -> (List.length rest < List.length s)%nat.
Proof.
  remember (List.length s) as n eqn:Hn.
  assert (Hle : (List.length s <= n)%nat) by lia. clear Hn.
  revert s str rest Hle. induction n as [|n IH]; intros s str rest Hle H.
  - destruct s; [discriminate | simpl in Hle; lia].
  - destruct s as [|c r]; [discriminate|]. simpl in H, Hle.
    destruct (c =? 34)%N; [inversion H; subst; simpl; lia|].
    destruct (c =? 92)%N.
    + destruct r as [|e r1]; [discriminate|].
      destruct (e =? 117)%N.
      * destruct r1 as [|h1 [|h2 [|h3 [|h4 r2]]]]; try discriminate.
        destruct (hex4 h1 h2 h3 h4); [|discriminate].
        apply push_unit_some in H. destruct H as [str' H].
        apply IH in H; simpl in *; lia.
      * destruct (simple_escape e); [|discriminate].
        apply push_unit_some in H. destruct H as [str' H].
        apply IH in H; simpl in *; lia.
    + destruct (c <? 32)%N; [discriminate|].
      apply push_unit_some in H. destruct H as [str' H].
      apply IH in H; simpl in *; lia.
Qed.

Lemma take_digits_le s ds rest :
  take_digits s = (ds, rest) -> (List.length rest <= List.length s)%nat.
Proof.
  revert ds rest. induction s as [|c s IH]; intros ds rest H; simpl in H.
  - inversion H; simpl; lia.
  - destruct (digit_value c).
    + destruct (take_digits s) as [ds' rest'] eqn:E. inversion H; subst.
      specialize (IH _ _ eq_refl). simpl; lia.
    + inversion H; subst; simpl; lia.
Qed.

Lemma lex_fraction_le s ds rest :
  lex_fraction s = Some (ds, rest) -> (List.length rest <= List.length s)%nat.
Proof.
  unfold lex_fraction. destruct s as [|c r]; [intros H; inversion H; simpl; lia|].
  destruct (c =? cu ".")%N.
  - destruct (take_digits r) as [[|d ds'] rest'] eqn:E; [discriminate|].
    intros H; inversion H; subst. apply take_digits_le in E. simpl; lia.
  - intros H; inversion H; subst; simpl; lia.
Qed.

Lemma lex_exponent_le s e rest :
  lex_exponent s = Some (e, rest) -> (List.length rest <= List.length s)%nat.
Proof.
  unfold lex_exponent. destruct s as [|c r]; [intros H; inversion H; simpl; lia|].
  destruct ((c =? cu "e") || (c =? cu "E"))%N.
  - destruct r as [|c2 r'].
    + simpl. discriminate.
    + destruct (c2 =? cu "-")%N; [|destruct (c2 =? cu "+")%N].
      * destruct (take_digits r') as [[|d ds'] rest'] eqn:E; [discriminate|].
        intros H; inversion H; subst. apply take_digits_le in E. simpl; lia.
      * destruct (take_digits r') as [[|d ds'] rest'] eqn:E; [discriminate|].
        intros H; inversion H; subst. apply take_digits_le in E. simpl; lia.
      * destruct (take_digits (c2 :: r')) as [[|d ds'] rest'] eqn:E; [discriminate|].
        intros H; inversion H; subst. apply take_digits_le in E. simpl in *; lia.
  - intros H; inversion H; subst; simpl; lia.
Qed.

Lemma take_digits_digit c r d ds rest :
  digit_value c = Some d -> take_digits (c :: r) = (ds, rest) ->
  (List.length rest <= List.length r)%nat.
Proof.
  intros Hd H. simpl in H. rewrite Hd in H.
  destruct (take_digits r) as [ds' rest'] eqn:E. inversion H; subst.
  now apply take_digits_le in E.
Qed.

Lemma lex_number_lt s n rest :
  lex_number s = Some (n, rest) -> (List.length rest < List.length s)%nat.
Proof.
  unfold lex_number.
  assert (Hcore : forall s1 neg,
    match s1 with
    | [] => None
    | c :: r =>
        match digit_value c with
        | None => None
        | Some d =>
            let (ints, s2) := if (d =? 0)%N then ([0%N], r) else take_digits s1 in
            match lex_fraction s2 with
            | None => None
            | Some (fracs, s3) =>
                match lex_exponent s3 with
                | None => None
                | Some (e, s4) =>
                    Some ({| negative := neg;
                             mantissa := digits_value (ints ++ fracs);
                             exponent10 := e - Z.of_nat (List.length fracs) |}, s4)
                end
            end
        end
    end = Some (n, rest) -> (List.length rest < List.length s1)%nat).
  { intros [|c r] neg; [discriminate|].
    destruct (digit_value c) as [d|] eqn:Hd; [|discriminate].
    assert (Hs2 : forall ints s2,
              (if (d =? 0)%N then ([0%N], r) else take_digits (c :: r)) = (ints, s2) ->
              (List.length s2 <= List.length r)%nat).
    { intros ints s2. destruct (d =? 0)%N.
      - intros H; inversion H; lia.
      - now apply take_digits_digit with (d := d). }
    destruct (if (d =? 0)%N then ([0%N], r) else take_digits (c :: r)) as [ints s2] eqn:E.
    specialize (Hs2 _ _ eq_refl).
    destruct (lex_fraction s2) as [[fracs s3]|] eqn:Ef; [|discriminate].
    destruct (lex_exponent s3) as [[e s4]|] eqn:Ee; [|discriminate].
    intros H; inversion H; subst.
    apply lex_fraction_le in Ef. apply lex_exponent_le in Ee. simpl; lia. }
  destruct s as [|c r].
  - discriminate.
  - destruct (c =? cu "-")%N.
    + intros H. apply (Hcore r true) in H. simpl; lia.
    + intros H. now apply (Hcore (c :: r) false) in H.
Qed.

Lemma strip_prefix_le p s rest :
  strip_prefix p s = Some rest -> (List.length rest <= List.length s)%nat.
Proof.
  revert s. induction p as [|a p IH]; intros s H; simpl in H.
  - inversion H; lia.
  - destruct s as [|b s]; [discriminate|].
    destruct (a =? b)%N; [|discriminate]. apply IH in H. simpl; lia.
Qed.

Ltac break_parse H :=
  repeat match type of H with
         | context [match ?x with _ => _ end] => destruct x eqn:?; try discriminate H
         end.

Ltac length_facts :=
  repeat match goal with
         | H : skip_ws _ = _ |- _ => apply skip_ws_le in H; simpl in H
         | H : lex_string _ = Some _ |- _ => apply lex_string_lt in H; simpl in H
         | H : lex_number _ = Some _ |- _ => apply lex_number_lt in H; simpl in H
         | H : strip_prefix _ _ = Some _ |- _ => apply strip_prefix_le in H; simpl in H
         end.

(** Every parser consumes a part of the text. *)
Lemma parse_consumes fuel :
  (forall s v rest, parse_value fuel s = POk v rest ->
                    (List.length rest < List.length s)%nat)
  /\ (forall s vs rest, parse_elements fuel s = POk vs rest ->
                        (List.length rest < List.length s)%nat)
  /\ (forall s ms rest, parse_members fuel s = POk ms rest ->
                        (List.length rest < List.length s)%nat).
Proof.
  induction fuel as [|f [IHv [IHe IHm]]]; [repeat split; intros; discriminate|].
  split; [|split].
  - intros s v rest H. cbn [parse_value parse_elements parse_members] in H. break_parse H; inversion H; subst;
      repeat match goal with
             | E : parse_members f _ = POk _ _ |- _ => apply IHm in E; simpl in E
             | E : parse_elements f _ = POk _ _ |- _ => apply IHe in E; simpl in E
             end;
      length_facts; simpl in *; lia.
  - intros s vs rest H. cbn [parse_value parse_elements parse_members] in H. break_parse H; inversion H; subst;
      repeat match goal with
             | E : parse_value f _ = POk _ _ |- _ => apply IHv in E; simpl in E
             | E : parse_elements f _ = POk _ _ |- _ => apply IHe in E; simpl in E
             end;
      length_facts; simpl in *; lia.
  - intros s ms rest H. cbn [parse_value parse_elements parse_members] in H. break_parse H; inversion H; subst;
      repeat match goal with
             | E : parse_value f _ = POk _ _ |- _ => apply IHv in E; simpl in E
             | E : parse_members f _ = POk _ _ |- _ => apply IHm in E; simpl in E
             end;
      length_facts; simpl in *; lia.
Qed.

(** With fuel above twice the length of the text, no parser runs out. *)
Lemma parse_fuel_enough fuel :
  (forall s, (2 * List.length s + 2 <= fuel)%nat -> parse_value fuel s <> POutOfFuel)
  /\ (forall s, (2 * List.length s + 3 <= fuel)%nat -> parse_elements fuel s <> POutOfFuel)
  /\ (forall s, (2 * List.length s + 3 <= fuel)%nat -> parse_members fuel s <> POutOfFuel).
Proof.
  induction fuel as [|f [IHv [IHe IHm]]]; [repeat split; intros; lia|].
  split; [|split].
  - intros s Hf H. cbn [parse_value parse_elements parse_members] in H. break_parse H;
      match goal with
      | E : parse_members f ?x = POutOfFuel |- _ => apply (IHm x); [|exact E]
      | E : parse_elements f ?x = POutOfFuel |- _ => apply (IHe x); [|exact E]
      end;
      length_facts; simpl in *; lia.
  - intros s Hf H. cbn [parse_value parse_elements parse_members] in H. break_parse H;
      repeat match goal with
             | E : parse_value f _ = POk _ _ |- _ =>
                 apply (proj1 (parse_consumes f)) in E; simpl in E
             end;
      match goal with
      | E : parse_elements f ?x = POutOfFuel |- _ => apply (IHe x); [|exact E]
      | E : parse_value f ?x = POutOfFuel |- _ => apply (IHv x); [|exact E]
      end;
      length_facts; simpl in *; lia.
  - intros s Hf H. cbn [parse_value parse_elements parse_members] in H. break_parse H;
      repeat match goal with
             | E : parse_value f _ = POk _ _ |- _ =>
                 apply (proj1 (parse_consumes f)) in E; simpl in E
             end;
      match goal with
      | E : parse_members f ?x = POutOfFuel |- _ => apply (IHm x); [|exact E]
      | E : parse_value f ?x = POutOfFuel |- _ => apply (IHv x); [|exact E]
      end;
      length_facts; simpl in *; lia.
Qed.

(** [JSON_parse] never stops for lack of fuel: a [SyntaxError] of the model
    is a syntax error of the text. *)
Lemma JSON_parse_fuel s : parse_value (parse_fuel s) s <> POutOfFuel.
Proof. apply (proj1 (parse_fuel_enough (parse_fuel s))). unfold parse_fuel. lia. Qed.

(* ================================================================== *)
(** ** The extractor *)

Lemma ServerJs_extractJSON_string s :
  ServerJs.extractJSON (VString s) =
  if (indexOf s (cu "{") =? -1) || (lastIndexOf s (cu "}") =? -1)
  then Thrown (Error (js "Failed to parse JSON from AI response."))
  else otry (JSON_parse (substring s (indexOf s (cu "{")) (lastIndexOf s (cu "}") + 1)))
         (fun _ => Thrown (Error (js "Failed to parse JSON from AI response."))).
Proof.
  unfold ServerJs.extractJSON.
  cbn [call_indexOf call_lastIndexOf obind call_substring].
  now destruct ((indexOf s (cu "{") =? -1) || (lastIndexOf s (cu "}") =? -1)).
Qed.

Lemma Part000_extractJSON_string s :
  Part000.extractJSON (VString s) =
  if (indexOf s (cu "{") =? -1) || (lastIndexOf s (cu "}") =? -1)
  then Thrown (Error (js "JSON not found in AI response"))
  else JSON_parse (substring s (indexOf s (cu "{")) (lastIndexOf s (cu "}") + 1)).
Proof.
  unfold Part000.extractJSON.
  cbn [call_indexOf call_lastIndexOf obind call_substring].
  now destruct ((indexOf s (cu "{") =? -1) || (lastIndexOf s (cu "}") =? -1)).
Qed.

Lemma braces_present s :
  (indexOf s (cu "{") =? -1) || (lastIndexOf s (cu "}") =? -1) = false
  <-> In (cu "{") s /\ In (cu "}") s.
Proof.
  rewrite orb_false_iff, !Z.eqb_neq, indexOf_absent, lastIndexOf_absent.
  split; intros [H1 H2]; split.
  - destruct (in_dec N.eq_dec (cu "{") s); tauto.
  - destruct (in_dec N.eq_dec (cu "}") s); tauto.
  - tauto.
  - tauto.
Qed.

Lemma braces_absent s :
  (indexOf s (cu "{") =? -1) || (lastIndexOf s (cu "}") =? -1) = true
  <-> ~ In (cu "{") s \/ ~ In (cu "}") s.
Proof.
  rewrite orb_true_iff, !Z.eqb_eq, indexOf_absent, lastIndexOf_absent. tauto.
Qed.

(** With the braces in order, the span starts with the opening brace. *)
Lemma span_head s :
  indexOf s (cu "{") <> -1 -> lastIndexOf s (cu "}") <> -1 ->
  indexOf s (cu "{") <= lastIndexOf s (cu "}") ->
  exists r, substring s (indexOf s (cu "{")) (lastIndexOf s (cu "}") + 1) = cu "{" :: r.
Proof.
  intros Hs He Hle.
  destruct (indexOf_found s (cu "{") Hs) as [Hr Hn].
  pose proof (lastIndexOf_found s (cu "}") He) as Hr'.
  apply substring_head; try lia; assumption.
Qed.

(** With the braces in order, what either extractor returns is an object:
    the value of the span. *)
Lemma extractJSON_in_order f s v :
  0 <= indexOf s (cu "{") <= lastIndexOf s (cu "}") ->
  JSON_parse (substring s (indexOf s (cu "{")) (lastIndexOf s (cu "}") + 1)) = Returned v ->
  extractJSON_of f (VString s) = Returned v /\ exists ms, v = VObject ms.
Proof.
  intros Hle Hp.
  assert (Hb : (indexOf s (cu "{") =? -1) || (lastIndexOf s (cu "}") =? -1) = false).
  { rewrite orb_false_iff, !Z.eqb_neq; lia. }
  split.
  - destruct f; simpl.
    + now rewrite ServerJs_extractJSON_string, Hb, Hp.
    + now rewrite Part000_extractJSON_string, Hb, Hp.
  - destruct (span_head s) as [r Hr]; try lia.
    rewrite Hr in Hp. now apply JSON_parse_brace in Hp.
Qed.

(* ================================================================== *)
(** ** The extractor: what it returns and when it fails *)

(** C5. For a non-empty text whose first opening brace is not after its
    last closing brace, and whose inclusive span between the two is a JSON
    text, the extractor returns the value of that span, which is an object;
    in particular it returns the object with [html = "a"], [css = "b"] and
    [js = "c"] for the text [prefix {"html":"a","css":"b","js":"c"} suffix]. *)
Theorem extractJSON_returns_span (f : source_file) :
  (forall s v,
     s <> [] ->
     0 <= indexOf s (cu "{") <= lastIndexOf s (cu "}") ->
     JSON_parse (substring s (indexOf s (cu "{")) (lastIndexOf s (cu "}") + 1)) = Returned v ->
     extractJSON_of f (VString s) = Returned v /\ exists ms, v = VObject ms)
  /\ extractJSON_of f (VString (jsq "prefix {'html':'a','css':'b','js':'c'} suffix"))
     = Returned (VObject [ (js "html", VString (js "a"));
                           (js "css", VString (js "b"));
                           (js "js", VString (js "c")) ]).
Proof.
  split.
  - intros s v _ Hle Hp. now apply extractJSON_in_order.
  - destruct f; reflexivity.
Qed.

Lemma extractJSON_returns_span_witness :
  Part000.extractJSON (VString (jsq "Here you go: {'html':'<p>hi</p>'} Enjoy!"))
  = Returned (VObject [(js "html", VString (js "<p>hi</p>"))]).
Proof.
  destruct (extractJSON_returns_span part_000) as [H _].
  apply (H (jsq "Here you go: {'html':'<p>hi</p>'} Enjoy!")).
  - discriminate.
  - vm_compute; split; discriminate.
  - reflexivity.
Defined.

(** The text [} 1 {] has its first opening brace (index 4) after its last
    closing brace (index 0), and both extractors return the number 1 for it;
    and the error of [server.js] for a text without braces is not the
    "JSON not found" one. *)
Lemma extractJSON_inverted_braces :
  indexOf (js "} 1 {") (cu "{") = 4
  /\ lastIndexOf (js "} 1 {") (cu "}") = 0
  /\ ServerJs.extractJSON (VString (js "} 1 {")) = Returned (integer 1)
  /\ Part000.extractJSON (VString (js "} 1 {")) = Returned (integer 1)
  /\ ServerJs.extractJSON (VString (js "no braces"))
     = Thrown (Error (js "Failed to parse JSON from AI response.")).
Proof. repeat split. Qed.

(** C4, amended. The extractor fails for a text without an opening brace
    or without a closing brace, and for a text with both in order whose
    inclusive span is not a JSON text.  In [server.js] every failure carries
    the one message "Failed to parse JSON from AI response." (the inner
    "JSON not found" error is caught and replaced).  In [part_000] the error
    is "JSON not found in AI response" exactly when a brace is missing, and
    the [SyntaxError] of [JSON.parse] when the span is not a JSON text. *)
Theorem extractJSON_failures (s : jsstring) :
  (forall f,
     ~ In (cu "{") s \/ ~ In (cu "}") s ->
     extractJSON_of f (VString s) = Thrown (ParseError_not_found f))
  /\ (forall f e,
        0 <= indexOf s (cu "{") <= lastIndexOf s (cu "}") ->
        JSON_parse (substring s (indexOf s (cu "{")) (lastIndexOf s (cu "}") + 1)) = Thrown e ->
        extractJSON_of f (VString s) = Thrown (ParseError_invalid f))
  /\ (forall e,
        ServerJs.extractJSON (VString s) = Thrown e ->
        e = Error (js "Failed to parse JSON from AI response."))
  /\ (Part000.extractJSON (VString s) = Thrown (Error (js "JSON not found in AI response"))
      <-> ~ In (cu "{") s \/ ~ In (cu "}") s).
Proof.
  split; [|split; [|split; [|split]]].
  - intros f Hab. apply braces_absent in Hab. destruct f; simpl.
    + now rewrite ServerJs_extractJSON_string, Hab.
    + now rewrite Part000_extractJSON_string, Hab.
  - intros f e Hle Hp.
    assert (Hb : (indexOf s (cu "{") =? -1) || (lastIndexOf s (cu "}") =? -1) = false).
    { rewrite orb_false_iff, !Z.eqb_neq; lia. }
    destruct f; simpl.
    + now rewrite ServerJs_extractJSON_string, Hb, Hp.
    + rewrite Part000_extractJSON_string, Hb, Hp. now rewrite (JSON_parse_throws _ _ Hp).
  - intros e. rewrite ServerJs_extractJSON_string.
    destruct ((indexOf s (cu "{") =? -1) || (lastIndexOf s (cu "}") =? -1)).
    + intros H; now inversion H.
    + destruct (JSON_parse _); simpl; intros H; [discriminate | now inversion H].
  - rewrite Part000_extractJSON_string.
    destruct ((indexOf s (cu "{") =? -1) || (lastIndexOf s (cu "}") =? -1)) eqn:Hb.
    + intros _. now apply braces_absent.
    + intros Hp. apply JSON_parse_throws in Hp. discriminate.
  - intros Hab. apply braces_absent in Hab.
    now rewrite Part000_extractJSON_string, Hab.
Qed.

Lemma extractJSON_failures_witness :
  ServerJs.extractJSON (VString (js "Sorry, I cannot help with that."))
  = Thrown (Error (js "Failed to parse JSON from AI response."))
  /\ Part000.extractJSON (VString (jsq "{'html': oops}")) = Thrown SyntaxError.
Proof.
  split.
  - destruct (extractJSON_failures (js "Sorry, I cannot help with that.")) as [H _].
    apply (H server_js). left. vm_compute. intuition discriminate.
  - destruct (extractJSON_failures (jsq "{'html': oops}")) as [_ [H _]].
    apply (H part_000 SyntaxError).
    + vm_compute; split; discriminate.
    + reflexivity.
Defined.


(* ================================================================== *)
(** ** Traces *)

Lemma requests_of_app t1 t2 : requests_of (t1 ++ t2) = requests_of t1 ++ requests_of t2.
Proof.
  induction t1 as [|e t1 IH]; simpl; [reflexivity|].
  destruct e; simpl; now rewrite IH.
Qed.

Lemma sleeps_of_app t1 t2 : sleeps_of (t1 ++ t2) = sleeps_of t1 ++ sleeps_of t2.
Proof.
  induction t1 as [|e t1 IH]; simpl; [reflexivity|].
  destruct e; simpl; now rewrite IH.
Qed.

(* ================================================================== *)
(** ** The retrying fetcher, one iteration at a time *)

Section RetryLoop.
Variable net : transport.
Variables (u : jsstring) (o : request_init) (retries delay : Z).
Local Abbreviation r := {| url := u; init := o |}.

Lemma ok_503 resp : status resp = 503 -> ok resp = false.
Proof. unfold ok; intros ->; reflexivity. Qed.

Lemma ServerJs_iteration_ok resp k i t :
  net (requests_of t) r = Responds resp -> ok resp = true ->
  ServerJs.retry_loop net u o retries delay (S k) i t = (Returned resp, t ++ [Request r]).
Proof.
  intros Hn Hok. simpl. unfold bind at 1. unfold fetch. rewrite Hn, Hok.
  reflexivity.
Qed.

Lemma ServerJs_iteration_503 resp k i t :
  net (requests_of t) r = Responds resp -> status resp = 503 ->
  exists line,
    ServerJs.retry_loop net u o retries delay (S k) i t =
    ServerJs.retry_loop net u o retries delay k (i + 1)
      (t ++ [Request r; Console warn [line]; Sleep delay]).
Proof.
  intros Hn Hs. eexists. simpl. unfold bind at 1. unfold fetch.
  rewrite Hn, (ok_503 _ Hs), Hs. simpl.
  unfold bind, console, sleep, emit. rewrite <- !app_assoc. reflexivity.
Qed.

Lemma ServerJs_iteration_429 resp k i t :
  net (requests_of t) r = Responds resp -> status resp = 429 ->
  exists line,
    ServerJs.retry_loop net u o retries delay (S k) i t =
    (Thrown (QuotaExceeded server_js),
     t ++ [Request r; Console error [line; body_text resp]]).
Proof.
  intros Hn Hs. eexists. simpl. unfold bind at 1. unfold fetch.
  rewrite Hn. unfold ok. rewrite Hs. simpl.
  unfold bind, text, ret, console, emit, throw. rewrite <- !app_assoc. reflexivity.
Qed.

Lemma ServerJs_iteration_other resp k i t :
  net (requests_of t) r = Responds resp ->
  ok resp = false -> status resp <> 429 -> status resp <> 503 ->
  ServerJs.retry_loop net u o retries delay (S k) i t =
  (Thrown (UpstreamError server_js resp), t ++ [Request r]).
Proof.
  intros Hn Hok H1 H2. simpl. unfold bind at 1. unfold fetch.
  rewrite Hn, Hok.
  destruct (Z.eqb_spec (status resp) 429); [contradiction|].
  destruct (Z.eqb_spec (status resp) 503); [contradiction|].
  reflexivity.
Qed.

Lemma ServerJs_iteration_rejected msg k i t :
  net (requests_of t) r = Rejects msg ->
  ServerJs.retry_loop net u o retries delay (S k) i t =
  (Thrown (FetchError msg), t ++ [Request r]).
Proof.
  intros Hn. simpl. unfold bind at 1. unfold fetch. now rewrite Hn.
Qed.

Lemma Part000_iteration_ok resp k i t :
  net (requests_of t) r = Responds resp -> ok resp = true ->
  Part000.retry_loop net u o retries delay (S k) i t = (Returned resp, t ++ [Request r]).
Proof.
  intros Hn Hok. simpl. unfold bind at 1. unfold fetch. rewrite Hn, Hok.
  reflexivity.
Qed.

Lemma Part000_iteration_503 resp k i t :
  net (requests_of t) r = Responds resp -> status resp = 503 ->
  Part000.retry_loop net u o retries delay (S k) i t =
  Part000.retry_loop net u o retries delay k (i + 1) (t ++ [Request r; Sleep delay]).
Proof.
  intros Hn Hs. simpl. unfold bind at 1. unfold fetch.
  rewrite Hn, (ok_503 _ Hs), Hs. simpl.
  unfold bind, sleep, emit. rewrite <- !app_assoc. reflexivity.
Qed.

Lemma Part000_iteration_429 resp k i t :
  net (requests_of t) r = Responds resp -> status resp = 429 ->
  Part000.retry_loop net u o retries delay (S k) i t =
  (Thrown (QuotaExceeded part_000), t ++ [Request r]).
Proof.
  intros Hn Hs. simpl. unfold bind at 1. unfold fetch.
  rewrite Hn. unfold ok. rewrite Hs. reflexivity.
Qed.

Lemma Part000_iteration_other resp k i t :
  net (requests_of t) r = Responds resp ->
  ok resp = false -> status resp <> 429 -> status resp <> 503 ->
  Part000.retry_loop net u o retries delay (S k) i t =
  (Thrown (UpstreamError part_000 resp), t ++ [Request r]).
Proof.
  intros Hn Hok H1 H2. simpl. unfold bind at 1. unfold fetch.
  rewrite Hn, Hok.
  destruct (Z.eqb_spec (status resp) 429); [contradiction|].
  destruct (Z.eqb_spec (status resp) 503); [contradiction|].
  reflexivity.
Qed.

Lemma Part000_iteration_rejected msg k i t :
  net (requests_of t) r = Rejects msg ->
  Part000.retry_loop net u o retries delay (S k) i t =
  (Thrown (FetchError msg), t ++ [Request r]).
Proof.
  intros Hn. simpl. unfold bind at 1. unfold fetch. now rewrite Hn.
Qed.
End RetryLoop.


(* ================================================================== *)
(** ** The retrying fetcher: whole calls *)

Lemma ok_200 resp : status resp = 200 -> ok resp = true.
Proof. unfold ok; intros ->; reflexivity. Qed.

Ltac trace_norm :=
  rewrite ?requests_of_app, ?sleeps_of_app; simpl;
  rewrite <- ?app_assoc; simpl; rewrite ?app_nil_r.

Lemma ServerJs_503_503_200 net u o delay t r1 r2 r3 :
  let r := {| url := u; init := o |} in
  net (requests_of t) r = Responds r1 -> status r1 = 503 ->
  net (requests_of t ++ [r]) r = Responds r2 -> status r2 = 503 ->
  net (requests_of t ++ [r; r]) r = Responds r3 -> status r3 = 200 ->
  exists t',
    ServerJs.fetchWithRetry net u o 3 delay t = (Returned r3, t')
    /\ requests_of t' = requests_of t ++ [r; r; r]
    /\ sleeps_of t' = sleeps_of t ++ [delay; delay].
Proof.
  intros r; subst r; intros H1 S1 H2 S2 H3 S3.
  unfold ServerJs.fetchWithRetry. change (Z.to_nat 3) with 3%nat.
  destruct (ServerJs_iteration_503 net u o 3 delay r1 2 0 t H1 S1) as [l1 ->].
  destruct (ServerJs_iteration_503 net u o 3 delay r2 1 (0 + 1)
              (t ++ [Request {| url := u; init := o |}; Console warn [l1]; Sleep delay]))
    as [l2 ->];
    [trace_norm; exact H2 | exact S2 |].
  rewrite (ServerJs_iteration_ok net u o 3 delay r3);
    [| trace_norm; exact H3 | now apply ok_200].
  eexists; split; [reflexivity|]. split; trace_norm; reflexivity.
Qed.

Lemma Part000_503_503_200 net u o delay t r1 r2 r3 :
  let r := {| url := u; init := o |} in
  net (requests_of t) r = Responds r1 -> status r1 = 503 ->
  net (requests_of t ++ [r]) r = Responds r2 -> status r2 = 503 ->
  net (requests_of t ++ [r; r]) r = Responds r3 -> status r3 = 200 ->
  exists t',
    Part000.fetchWithRetry net u o 3 delay t = (Returned r3, t')
    /\ requests_of t' = requests_of t ++ [r; r; r]
    /\ sleeps_of t' = sleeps_of t ++ [delay; delay].
Proof.
  intros r; subst r; intros H1 S1 H2 S2 H3 S3.
  unfold Part000.fetchWithRetry. change (Z.to_nat 3) with 3%nat.
  rewrite (Part000_iteration_503 net u o 3 delay r1 2 0 t H1 S1).
  rewrite (Part000_iteration_503 net u o 3 delay r2);
    [| trace_norm; exact H2 | exact S2].
  rewrite (Part000_iteration_ok net u o 3 delay r3);
    [| trace_norm; exact H3 | now apply ok_200].
  eexists; split; [reflexivity|]. split; trace_norm; reflexivity.
Qed.

(** A transport that is overloaded whatever was asked before uses up the
    iterations, however many they are. *)
Lemma ServerJs_always_503 net u o retries delay :
  let r := {| url := u; init := o |} in
  (forall earlier, exists resp, net earlier r = Responds resp /\ status resp = 503) ->
  forall k i t, exists t',
    ServerJs.retry_loop net u o retries delay k i t = (Thrown (TransientExhausted server_js), t')
    /\ requests_of t' = requests_of t ++ repeat r k.
Proof.
  intros r; subst r; intros Hnet k. induction k as [|k IH]; intros i t.
  - exists t. split; [reflexivity | now rewrite app_nil_r].
  - destruct (Hnet (requests_of t)) as [resp [Hn Hs]].
    destruct (ServerJs_iteration_503 net u o retries delay resp k i t Hn Hs) as [l ->].
    destruct (IH (i + 1) (t ++ [Request {| url := u; init := o |}; Console warn [l];
                                Sleep delay])) as [t' [E R]].
    exists t'. split; [exact E|]. rewrite R. trace_norm. reflexivity.
Qed.

Lemma Part000_always_503 net u o retries delay :
  let r := {| url := u; init := o |} in
  (forall earlier, exists resp, net earlier r = Responds resp /\ status resp = 503) ->
  forall k i t, exists t',
    Part000.retry_loop net u o retries delay k i t = (Thrown (TransientExhausted part_000), t')
    /\ requests_of t' = requests_of t ++ repeat r k.
Proof.
  intros r; subst r; intros Hnet k. induction k as [|k IH]; intros i t.
  - exists t. split; [reflexivity | now rewrite app_nil_r].
  - destruct (Hnet (requests_of t)) as [resp [Hn Hs]].
    rewrite (Part000_iteration_503 net u o retries delay resp k i t Hn Hs).
    destruct (IH (i + 1) (t ++ [Request {| url := u; init := o |}; Sleep delay]))
      as [t' [E R]].
    exists t'. split; [exact E|]. rewrite R. trace_norm. reflexivity.
Qed.

(** C1. With [retries = 3]: when the transport answers the first two
    requests of the call with status 503 and the third with status 200, the
    call returns that third response, having issued exactly three requests
    and slept exactly twice, each time for [delay]; when the transport
    answers 503 whatever was asked before, the call throws the
    overloaded-after-retries error after exactly three requests. *)
Theorem fetchWithRetry_three_attempts (f : source_file) (net : transport)
  (u : jsstring) (o : request_init) (delay : Z) (t : trace) :
  let r := {| url := u; init := o |} in
  (forall r1 r2 r3,
     net (requests_of t) r = Responds r1 -> status r1 = 503 ->
     net (requests_of t ++ [r]) r = Responds r2 -> status r2 = 503 ->
     net (requests_of t ++ [r; r]) r = Responds r3 -> status r3 = 200 ->
     exists t',
       fetchWithRetry_of f net u o 3 delay t = (Returned r3, t')
       /\ requests_of t' = requests_of t ++ [r; r; r]
       /\ sleeps_of t' = sleeps_of t ++ [delay; delay])
  /\
  ((forall earlier, exists resp, net earlier r = Responds resp /\ status resp = 503) ->
   exists t',
     fetchWithRetry_of f net u o 3 delay t = (Thrown (TransientExhausted f), t')
     /\ requests_of t' = requests_of t ++ [r; r; r]).
Proof.
  intros r. split.
  - intros r1 r2 r3 H1 S1 H2 S2 H3 S3. destruct f; simpl.
    + now apply (ServerJs_503_503_200 net u o delay t r1 r2 r3).
    + now apply (Part000_503_503_200 net u o delay t r1 r2 r3).
  - intros Hnet. destruct f; simpl.
    + apply (ServerJs_always_503 net u o 3 delay Hnet 3%nat 0 t).
    + apply (Part000_always_503 net u o 3 delay Hnet 3%nat 0 t).
Qed.

Lemma fetchWithRetry_three_attempts_witness :
  (exists t',
     Part000.fetchWithRetry
       (overloaded_first 2 {| status := 200; body_text := js "{}" |})
       (js "u") sample_init 3 2000 [] =
     (Returned {| status := 200; body_text := js "{}" |}, t')
     /\ List.length (requests_of t') = 3%nat /\ sleeps_of t' = [2000; 2000])
  /\
  (exists t',
     ServerJs.fetchWithRetry
       (always {| status := 503; body_text := [] |}) (js "u") sample_init 3 2000 [] =
     (Thrown (Error (js "Model overloaded after multiple retries.")), t')
     /\ List.length (requests_of t') = 3%nat).
Proof.
  split.
  - destruct (fetchWithRetry_three_attempts part_000
                (overloaded_first 2 {| status := 200; body_text := js "{}" |})
                (js "u") sample_init 2000 []) as [H _].
    destruct (H _ _ _ eq_refl eq_refl eq_refl eq_refl eq_refl eq_refl) as [t' [E [R S]]].
    exists t'. split; [exact E|]. split; [now rewrite R | exact S].
  - destruct (fetchWithRetry_three_attempts server_js
                (always {| status := 503; body_text := [] |})
                (js "u") sample_init 2000 []) as [_ H].
    destruct H as [t' [E R]].
    + intros earlier. eexists; split; reflexivity.
    + exists t'. split; [exact E | now rewrite R].
Defined.

(** C10. With [retries <= 0] the loop body never runs: the call issues no
    request (the trace is unchanged) and throws the
    overloaded-after-retries error, whatever the url, the options and the
    transport. *)
Theorem fetchWithRetry_no_iteration (f : source_file) (net : transport)
  (u : jsstring) (o : request_init) (retries delay : Z) (t : trace) :
  retries <= 0 ->
  fetchWithRetry_of f net u o retries delay t = (Thrown (TransientExhausted f), t).
Proof.
  intros H. destruct f; simpl.
  - unfold ServerJs.fetchWithRetry. replace (Z.to_nat retries) with 0%nat by lia. reflexivity.
  - unfold Part000.fetchWithRetry. replace (Z.to_nat retries) with 0%nat by lia. reflexivity.
Qed.

Lemma fetchWithRetry_no_iteration_witness :
  ServerJs.fetchWithRetry (always {| status := 200; body_text := [] |})
    (js "u") sample_init (-1) 2000 [] =
  (Thrown (Error (js "Model overloaded after multiple retries.")), []).
Proof.
  apply (fetchWithRetry_no_iteration server_js
           (always {| status := 200; body_text := [] |}) (js "u") sample_init (-1) 2000 []).
  lia.
Defined.

(** The error of [part_000] for a status other than 2xx, 429 and 503 is the
    same for two responses that differ in their body: it does not carry the
    body. *)
Lemma part_000_upstream_error_without_body :
  fst (Part000.fetchWithRetry (always {| status := 500; body_text := js "first" |})
         (js "u") sample_init 3 2000 [])
  = Thrown (Error (js "Google API error 500"))
  /\ fst (Part000.fetchWithRetry (always {| status := 500; body_text := js "second" |})
            (js "u") sample_init 3 2000 [])
     = Thrown (Error (js "Google API error 500")).
Proof. split; reflexivity. Qed.

(** C6, amended. When the first response of a call with [retries > 0] has a
    status that is neither 2xx nor 503, the call throws at once, after
    exactly one request and without any sleep: the quota error for 429, and
    otherwise an error whose message carries the status and, in [server.js]
    only, the body ([part_000] puts the status alone into it). *)
Theorem fetchWithRetry_terminal_status (f : source_file) (net : transport)
  (u : jsstring) (o : request_init) (retries delay : Z) (t : trace) (resp : response) :
  0 < retries ->
  net (requests_of t) {| url := u; init := o |} = Responds resp ->
  ok resp = false -> status resp <> 503 ->
  exists t',
    fetchWithRetry_of f net u o retries delay t =
    (Thrown (if status resp =? 429 then QuotaExceeded f else UpstreamError f resp), t')
    /\ requests_of t' = requests_of t ++ [{| url := u; init := o |}]
    /\ sleeps_of t' = sleeps_of t.
Proof.
  intros Hr Hn Hok H503.
  destruct (Z.to_nat retries) as [|k] eqn:Ek; [lia|].
  destruct (Z.eqb_spec (status resp) 429) as [H429|H429]; destruct f; simpl;
    unfold ServerJs.fetchWithRetry, Part000.fetchWithRetry; rewrite Ek.
  - destruct (ServerJs_iteration_429 net u o retries delay resp k 0 t Hn H429) as [l ->].
    eexists; split; [reflexivity|]. split; trace_norm; reflexivity.
  - rewrite (Part000_iteration_429 net u o retries delay resp k 0 t Hn H429).
    eexists; split; [reflexivity|]. split; trace_norm; reflexivity.
  - rewrite (ServerJs_iteration_other net u o retries delay resp k 0 t Hn Hok H429 H503).
    eexists; split; [reflexivity|]. split; trace_norm; reflexivity.
  - rewrite (Part000_iteration_other net u o retries delay resp k 0 t Hn Hok H429 H503).
    eexists; split; [reflexivity|]. split; trace_norm; reflexivity.
Qed.

Lemma fetchWithRetry_terminal_status_witness :
  exists t',
    ServerJs.fetchWithRetry (always {| status := 500; body_text := js "boom" |})
      (js "u") sample_init 3 2000 [] =
    (Thrown (Error (js "Google API failed (500): boom")), t')
    /\ requests_of t' = [{| url := js "u"; init := sample_init |}]
    /\ sleeps_of t' = [].
Proof.
  apply (fetchWithRetry_terminal_status server_js
           (always {| status := 500; body_text := js "boom" |})
           (js "u") sample_init 3 2000 [] {| status := 500; body_text := js "boom" |}).
  - lia.
  - reflexivity.
  - reflexivity.
  - simpl; lia.
Defined.

(* ================================================================== *)
(** ** What a computation adds to the trace *)

Lemma issues_ret {A} P (a : A) : issues P (ret a).
Proof. intros t; exists []; simpl; now rewrite app_nil_r. Qed.

Lemma issues_throw {A} P e : issues P (@throw A e).
Proof. intros t; exists []; simpl; now rewrite app_nil_r. Qed.

Lemma issues_lift {A} P (o : outcome A) : issues P (lift o).
Proof. intros t; exists []; simpl; now rewrite app_nil_r. Qed.

Lemma issues_emit P e : P e -> issues P (emit e).
Proof. intros H t; exists [e]; simpl; auto. Qed.

Lemma issues_bind {A B} P (m : M A) (k : A -> M B) :
  issues P m -> (forall a, issues P (k a)) -> issues P (bind m k).
Proof.
  intros Hm Hk t. unfold bind.
  destruct (Hm t) as [d [E F]]. destruct (m t) as [[a|e] t']; simpl in E; subst t'.
  - destruct (Hk a (t ++ d)) as [d' [E' F']].
    exists (d ++ d'). rewrite E', app_assoc. split; [reflexivity | now apply Forall_app].
  - exists d. now split.
Qed.

Lemma issues_try_catch {A} P (m : M A) (h : exn -> M A) :
  issues P m -> (forall e, issues P (h e)) -> issues P (try_catch m h).
Proof.
  intros Hm Hh t. unfold try_catch.
  destruct (Hm t) as [d [E F]]. destruct (m t) as [[a|e] t']; simpl in E; subst t'.
  - exists d. now split.
  - destruct (Hh e (t ++ d)) as [d' [E' F']].
    exists (d ++ d'). rewrite E', app_assoc. split; [reflexivity | now apply Forall_app].
Qed.

Lemma issues_fetch P net u o : P (Request {| url := u; init := o |}) -> issues P (fetch net u o).
Proof.
  intros H t. exists [Request {| url := u; init := o |}]. unfold fetch.
  destruct (net _ _); simpl; auto.
Qed.

Lemma issues_for_of P it models v :
  (forall model, issues P (it model)) -> issues P (for_of it models v).
Proof.
  intros H. induction models as [|model rest IH]; simpl.
  - apply issues_ret.
  - apply issues_bind; [apply H|]. intros [r|]; [apply issues_ret | exact IH].
Qed.

Lemma requests_of_issued Q d r :
  Forall (request_is Q) d -> In r (requests_of d) -> Q r.
Proof.
  induction d as [|e d IH]; simpl; [tauto|].
  intros F. inversion F as [|? ? He Fd]; subst.
  destruct e; simpl in *; auto. intros [->|Hin]; auto.
Qed.

Create HintDb issues.
#[local] Hint Resolve issues_ret issues_throw issues_lift issues_fetch : issues.

Ltac issues_step :=
  match goal with
  | |- issues _ (bind _ _) => apply issues_bind; [|intros ?]
  | |- issues _ (try_catch _ _) => apply issues_try_catch; [|intros ?]
  | |- issues _ (console _ _) => apply issues_emit; exact I
  | |- issues _ (sleep _) => apply issues_emit; exact I
  | |- issues _ (text _) => apply issues_ret
  | |- issues _ (json _) => apply issues_lift
  | |- issues _ (if ?b then _ else _) => destruct b
  | |- issues _ _ => solve [auto with issues]
  end.

Lemma ServerJs_retry_loop_issues Q net u o retries delay k i :
  Q {| url := u; init := o |} ->
  issues (request_is Q) (ServerJs.retry_loop net u o retries delay k i).
Proof.
  intros HQ. revert i. induction k as [|k IH]; intros i; simpl.
  - apply issues_throw.
  - repeat issues_step; try apply IH; apply issues_fetch; exact HQ.
Qed.

Lemma Part000_retry_loop_issues Q net u o retries delay k i :
  Q {| url := u; init := o |} ->
  issues (request_is Q) (Part000.retry_loop net u o retries delay k i).
Proof.
  intros HQ. revert i. induction k as [|k IH]; intros i; simpl.
  - apply issues_throw.
  - repeat issues_step; try apply IH; apply issues_fetch; exact HQ.
Qed.

Lemma iteration_issues Q f net engine key prompt model :
  Q (request_for f key prompt model) ->
  issues (request_is Q) (iteration_of f net engine key prompt model).
Proof.
  intros HQ. destruct f; simpl.
  - unfold ServerJs.iteration, ServerJs.attempt, ServerJs.fetchWithRetry.
    repeat issues_step; try now apply ServerJs_retry_loop_issues.
  - unfold Part000.iteration, Part000.attempt, Part000.fetchWithRetry.
    repeat issues_step; try now apply Part000_retry_loop_issues.
Qed.

Lemma orchestrate_issues Q f net engine models key prompt :
  (forall model, Q (request_for f key prompt model)) ->
  issues (request_is Q) (orchestrate_of f net engine models key prompt).
Proof.
  intros HQ.
  assert (H : issues (request_is Q)
                (for_of (iteration_of f net engine key prompt) models VNull)).
  { apply issues_for_of. intros model. now apply iteration_issues. }
  destruct f; simpl in *.
  - unfold ServerJs.orchestrate. repeat issues_step; try exact H.
  - unfold Part000.orchestrate. repeat issues_step; try exact H.
Qed.

(* ================================================================== *)
(** ** [ToString] and [JSON.stringify]: what they throw *)

Lemma value_induction (P : value -> Prop) :
  P VUndefined -> P VNull -> (forall b, P (VBool b)) -> (forall n, P (VNumber n)) ->
  (forall s, P (VString s)) ->
  (forall l, Forall P l -> P (VArray l)) ->
  (forall ms, Forall (fun m => P (snd m)) ms -> P (VObject ms)) ->
  forall v, P v.
Proof.
  intros Hu Hn Hb Hnum Hs Ha Ho. fix IH 1.
  intros [| | b | n | s | l | ms];
    [exact Hu | exact Hn | apply Hb | apply Hnum | apply Hs | |].
  - apply Ha. induction l as [|x r IHl]; constructor; [apply IH | exact IHl].
  - apply Ho. induction ms as [|[k x] r IHl]; constructor; [apply IH | exact IHl].
Qed.

(** The conversion to a string throws for an object with a [toString]
    member of its own, and when the arrays are nested too deep. *)
Lemma ToString_in_throws engine v :
  forall stack e, ToString_in engine stack v = Thrown e -> e = NotPrimitive \/ e = RangeError.
Proof.
  induction v as [| | b | n | s | l IHl | ms _] using value_induction;
    intros stack e H; try discriminate H.
  - destruct stack as [|k]; simpl in H; [inversion H; now right|].
    revert e H. induction IHl as [|x r Hx Hr IHr]; intros e H; [discriminate H|].
    unfold obind in H.
    match type of H with
    | match ?m with _ => _ end = _ => destruct m as [sx|e'] eqn:Ex
    end.
    + destruct r as [|y r']; [discriminate H|].
      match type of H with
      | match ?m with _ => _ end = _ => destruct m as [sr|e'] eqn:Er
      end; [discriminate H|].
      inversion H; subst e'. now apply IHr.
    + inversion H; subst e'. destruct x; try discriminate Ex; exact (Hx k e Ex).
  - simpl in H. destruct (own_property (js "toString") ms); inversion H. now left.
Qed.

Lemma last_entry_in {A} k (l : list (jsstring * A)) a :
  last_entry k l = Some a -> exists k', In (k', a) l.
Proof.
  induction l as [|[k' a'] r IH]; simpl; [discriminate|].
  destruct (last_entry k r) as [a''|].
  - intros H; inversion H; subst. destruct (IH eq_refl) as [k'' Hin]. eauto.
  - destruct (jsstring_eqb k k'); [|discriminate]. intros H; inversion H; subst. eauto.
Qed.

Lemma properties_throws keys texts e :
  (forall k e', In (k, Thrown e') texts -> e' = RangeError) ->
  properties keys texts = Thrown e -> e = RangeError.
Proof.
  intros Htexts. induction keys as [|k r IH]; simpl; [discriminate|].
  unfold obind. destruct (last_entry k texts) as [[sx|e']|] eqn:El.
  - destruct (properties r texts) as [sr|e'']; [discriminate|].
    intros H; inversion H; subst. now apply IH.
  - intros H; inversion H; subst. destruct (last_entry_in _ _ _ El) as [k' Hin].
    exact (Htexts k' e Hin).
  - destruct (properties r texts) as [sr|e'']; [discriminate|].
    intros H; inversion H; subst. now apply IH.
Qed.

(** The serialization throws only when the value is nested too deep. *)
Lemma serialize_throws engine v :
  forall stack e, serialize engine stack v = Thrown e -> e = RangeError.
Proof.
  induction v as [| | b | n | s | l IHl | ms IHms] using value_induction;
    intros stack e H; try discriminate H.
  - destruct stack as [|k]; simpl in H; [now inversion H|].
    unfold obind in H at 1.
    match type of H with
    | match ?m with _ => _ end = _ => destruct m as [items|e'] eqn:Ei
    end; [discriminate H|].
    inversion H; subst e'. clear H.
    revert e Ei. induction IHl as [|x r Hx Hr IHr]; intros e H; [discriminate H|].
    unfold obind in H.
    destruct (serialize engine k x) as [sx|e'] eqn:Ex.
    + match type of H with
      | match ?m with _ => _ end = _ => destruct m as [sr|e'] eqn:Er
      end; [discriminate H|].
      inversion H; subst e'. exact (IHr e Er).
    + inversion H; subst e'. exact (Hx k e Ex).
  - destruct stack as [|k]; simpl in H; [now inversion H|].
    unfold obind in H at 1.
    match type of H with
    | match properties ?keys ?texts with _ => _ end = _ =>
        destruct (properties keys texts) as [props|e'] eqn:Ep
    end; [discriminate H|].
    inversion H; subst e'. clear H.
    apply (properties_throws _ _ _) in Ep; [exact Ep|].
    clear Ep. induction IHms as [|[k0 x] r Hx Hr IHr]; intros k' e' Hin; [contradiction|].
    destruct Hin as [Hin|Hin].
    + inversion Hin. simpl in Hx. now apply (Hx k).
    + exact (IHr k' e' Hin).
Qed.

(** Only [undefined] has no serialization. *)
Lemma serialize_none engine stack v :
  serialize engine stack v = Returned None -> v = VUndefined.
Proof.
  destruct v as [| | b | n | s | l | ms]; try discriminate; [reflexivity | |];
    destruct stack as [|k]; simpl; try discriminate; unfold obind at 1;
    match goal with
    | |- match ?m with _ => _ end = _ -> _ => destruct m; discriminate
    end.
Qed.

Lemma JSON_stringify_cases engine v :
  v <> VUndefined ->
  (exists body, JSON_stringify engine v = Returned (Some body))
  \/ JSON_stringify engine v = Thrown RangeError.
Proof.
  intros Hv. unfold JSON_stringify.
  destruct (serialize engine (S (stringify_depth engine)) v) as [[body|]|e] eqn:E.
  - left. eauto.
  - now apply serialize_none in E.
  - right. now rewrite (serialize_throws _ _ _ _ E).
Qed.

Lemma truthy_defined v : ToBoolean v = true -> v <> VUndefined.
Proof. intros H ->. discriminate. Qed.

Lemma prompt_of_throws f engine topic e :
  prompt_of f engine topic = Thrown e -> e = NotPrimitive \/ e = RangeError.
Proof.
  destruct f; cbn [prompt_of]; unfold ServerJs.prompt, Part000.prompt, ToString, obind;
    destruct (ToString_in engine (S (join_depth engine)) topic) eqn:E; try discriminate;
    intros H; inversion H; subst; exact (ToString_in_throws _ _ _ _ E).
Qed.

(* ================================================================== *)
(** ** The handler: validation of the request *)

(** The error replies: the serialization of [{ error: message }] never
    throws. *)
Lemma res_json_error engine status message :
  res_json engine status (VObject [(js "error", VString message)])
  = ret {| code := status; payload := error_body message |}.
Proof. reflexivity. Qed.

Lemma res_json_returned engine status v body t :
  JSON_stringify engine v = Returned body ->
  res_json engine status v t = (Returned {| code := status; payload := sent body |}, t).
Proof. intros H. unfold res_json, bind, lift. now rewrite H. Qed.

Lemma res_json_thrown engine status v e t :
  JSON_stringify engine v = Thrown e -> res_json engine status v t = (Thrown e, t).
Proof. intros H. unfold res_json, bind, lift. now rewrite H. Qed.

Lemma issues_res_json P engine status v : issues P (res_json engine status v).
Proof. unfold res_json. repeat issues_step. Qed.

#[local] Hint Resolve issues_res_json : issues.

Lemma bind_console {A} m args (k : unit -> M A) t :
  bind (console m args) k t = k tt (t ++ [Console m args]).
Proof. reflexivity. Qed.

Lemma post_generate_falsy_topic f net engine models key req_body topic t :
  select_topic req_body = Returned topic -> ToBoolean topic = false ->
  key_missing key = false ->
  post_generate_of f net engine models key req_body t =
  (Returned {| code := 400; payload := error_body (topic_required f) |}, t).
Proof.
  intros Hsel Hfalsy Hkey. destruct f; simpl.
  - unfold ServerJs.post_generate, try_catch, bind, lift.
    now rewrite Hsel, Hkey, Hfalsy.
  - unfold Part000.post_generate, try_catch, bind, lift.
    now rewrite Hsel, Hkey, Hfalsy.
Qed.

Lemma select_topic_absent ms :
  own_property (js "topic") ms = None -> own_property (js "prompt") ms = None ->
  select_topic (VObject ms) = Returned VUndefined.
Proof.
  intros Ht Hp. unfold select_topic, get, obind. now rewrite Ht, Hp.
Qed.

(** C7. For a request body that is an object with neither a [topic] nor a
    [prompt] member (the body [{}] among them), and with the credential
    configured, the handler replies 400 with the body [{ error: message }]
    and leaves the trace as it was: no outbound request is issued. *)
Theorem post_generate_without_topic (f : source_file) (net : transport)
  (engine : runtime) (models : list jsstring) (key : option jsstring)
  (ms : list (jsstring * value)) (t : trace) :
  key_missing key = false ->
  own_property (js "topic") ms = None ->
  own_property (js "prompt") ms = None ->
  post_generate_of f net engine models key (VObject ms) t =
  (Returned {| code := 400; payload := error_body (topic_required f) |}, t).
Proof.
  intros Hkey Ht Hp.
  apply post_generate_falsy_topic with (topic := VUndefined);
    [now apply select_topic_absent | reflexivity | exact Hkey].
Qed.

Lemma post_generate_without_topic_witness :
  ServerJs.app_post_generate (always {| status := 200; body_text := js "{}" |})
    silent_engine (Some (js "secret")) (VObject []) [] =
  (Returned {| code := 400; payload := jsq "{'error':'Topic or prompt is required.'}" |},
   []).
Proof.
  apply (post_generate_without_topic server_js
           (always {| status := 200; body_text := js "{}" |})
           silent_engine ServerJs.MODELS (Some (js "secret")) [] []);
    reflexivity.
Defined.

(** X2. Whatever the handler does, it replies: no exception leaves it. *)
Lemma post_generate_replies f net engine models key req_body t :
  exists rep, fst (post_generate_of f net engine models key req_body t) = Returned rep.
Proof.
  destruct f; simpl.
  - unfold ServerJs.post_generate, try_catch.
    match goal with |- context [match ?x with _ => _ end] => destruct x as [[rep|e] t'] end;
      simpl; eauto.
  - unfold Part000.post_generate, try_catch.
    match goal with |- context [match ?x with _ => _ end] => destruct x as [[rep|e] t'] end;
      simpl; eauto.
Qed.

Lemma prompt_in_request_for f key prompt model :
  prompt_in (request_for f key prompt model) = prompt.
Proof. destruct f; reflexivity. Qed.

Lemma issues_bind_lift {A B} P (o : outcome A) (k : A -> M B) :
  (forall a, o = Returned a -> issues P (k a)) -> issues P (bind (lift o) k).
Proof.
  intros Hk t. unfold bind, lift. destruct o as [a|e].
  - now apply Hk.
  - exists []. simpl. now rewrite app_nil_r.
Qed.

(** Every request of the handler is one for the prompt of the selected,
    truthy topic. *)
Lemma post_generate_issues Q f net engine models key req_body :
  (forall topic prompt model,
     select_topic req_body = Returned topic -> ToBoolean topic = true ->
     prompt_of f engine topic = Returned prompt ->
     Q (request_for f (key_string key) prompt model)) ->
  issues (request_is Q) (post_generate_of f net engine models key req_body).
Proof.
  intros HQ. destruct f; simpl.
  - unfold ServerJs.post_generate.
    apply issues_try_catch; [|intros e; repeat issues_step].
    apply issues_bind_lift. intros topic Hsel.
    destruct (key_missing key); [apply issues_throw|].
    destruct (ToBoolean topic) eqn:Htruthy; simpl; [|apply issues_res_json].
    apply issues_bind_lift. intros prompt Hp.
    apply issues_bind; [|intros; apply issues_res_json].
    apply (orchestrate_issues Q server_js net engine). intros model.
    now apply (HQ topic).
  - unfold Part000.post_generate.
    apply issues_try_catch; [|intros e; repeat issues_step].
    apply issues_bind_lift. intros topic Hsel.
    destruct (key_missing key); [apply issues_throw|].
    destruct (ToBoolean topic) eqn:Htruthy; simpl; [|apply issues_res_json].
    apply issues_bind_lift. intros prompt Hp.
    apply issues_bind; [|intros; apply issues_res_json].
    apply (orchestrate_issues Q part_000 net engine). intros model.
    now apply (HQ topic).
Qed.

(** Without a truthy topic the handler adds no request to the trace. *)
Lemma post_generate_rejects f net engine models key req_body topic t :
  select_topic req_body = Returned topic -> ToBoolean topic = false ->
  requests_of (snd (post_generate_of f net engine models key req_body t)) = requests_of t
  /\ exists message,
       fst (post_generate_of f net engine models key req_body t) =
       Returned {| code := if key_missing key then 503 else 400;
                   payload := error_body message |}.
Proof.
  intros Hsel Hfalsy. destruct (key_missing key) eqn:Hkey.
  - destruct f; simpl.
    + unfold ServerJs.post_generate, try_catch, bind, lift. rewrite Hsel, Hkey.
      cbn [throw console emit]. rewrite res_json_error. unfold ret.
      split; [cbn [snd]; trace_norm; reflexivity | cbn [fst]; eauto].
    + unfold Part000.post_generate, try_catch, bind, lift. rewrite Hsel, Hkey.
      cbn [throw]. rewrite res_json_error. unfold ret.
      split; [reflexivity | cbn [fst]; eauto].
  - rewrite (post_generate_falsy_topic f net engine models key req_body topic t Hsel Hfalsy Hkey).
    simpl. split; [reflexivity | eauto].
Qed.

(** The body [{ "topic": true }] selects the value [true], which is not a
    string, and the body [{ "topic": [] }] selects the empty array, whose
    text is empty; with the credential configured, both handlers issue a
    request for either, whose prompt holds [true], respectively nothing,
    between the quotes. *)
Lemma post_generate_accepts_non_string :
  select_topic (VObject [(js "topic", VBool true)]) = Returned (VBool true)
  /\ map prompt_in
       (requests_of (snd (ServerJs.app_post_generate
                            (always {| status := 200; body_text := envelope_around (js "{}") |})
                            silent_engine (Some (js "secret"))
                            (VObject [(js "topic", VBool true)]) [])))
     = [ServerJs.template (js "true")]
  /\ map prompt_in
       (requests_of (snd (Part000.app_post_generate
                            (always {| status := 200; body_text := envelope_around (js "{}") |})
                            silent_engine (Some (js "secret"))
                            (VObject [(js "topic", VBool true)]) [])))
     = [Part000.template (js "true")]
  /\ select_topic (VObject [(js "topic", VArray [])]) = Returned (VArray [])
  /\ map prompt_in
       (requests_of (snd (ServerJs.app_post_generate
                            (always {| status := 200; body_text := envelope_around (js "{}") |})
                            silent_engine (Some (js "secret"))
                            (VObject [(js "topic", VArray [])]) [])))
     = [ServerJs.template []]
  /\ map prompt_in
       (requests_of (snd (Part000.app_post_generate
                            (always {| status := 200; body_text := envelope_around (js "{}") |})
                            silent_engine (Some (js "secret"))
                            (VObject [(js "topic", VArray [])]) [])))
     = [Part000.template []].
Proof. repeat split. Qed.

(** C8, amended. The handler selects [topic || prompt].  When the selected
    value is falsy ([undefined], [null], [false], a zero number or the empty
    string) it replies 400, or 503 if the credential is missing, without any
    outbound request.  Every outbound request it does issue carries the
    prompt built around the string conversion of the selected value, which
    is then truthy; the value need not be a string and its text may be
    empty. *)
Theorem post_generate_topic_gate (f : source_file) (net : transport)
  (engine : runtime) (models : list jsstring) (key : option jsstring)
  (req_body : value) (t : trace) :
  (forall topic,
     select_topic req_body = Returned topic -> ToBoolean topic = false ->
     requests_of (snd (post_generate_of f net engine models key req_body t)) = requests_of t
     /\ exists message,
          fst (post_generate_of f net engine models key req_body t) =
          Returned {| code := if key_missing key then 503 else 400;
                      payload := error_body message |})
  /\ exists d,
       snd (post_generate_of f net engine models key req_body t) = t ++ d
       /\ forall r, In r (requests_of d) ->
            exists topic,
              select_topic req_body = Returned topic /\ ToBoolean topic = true
              /\ prompt_of f engine topic = Returned (prompt_in r).
Proof.
  split.
  - intros topic. apply post_generate_rejects.
  - destruct (post_generate_issues
                (fun r => exists topic,
                     select_topic req_body = Returned topic /\ ToBoolean topic = true
                     /\ prompt_of f engine topic = Returned (prompt_in r))
                f net engine models key req_body) with (t := t) as [d [E F]].
    + intros topic prompt model Hsel Htruthy Hp. exists topic.
      now rewrite prompt_in_request_for.
    + exists d. split; [exact E|]. intros r Hin.
      exact (requests_of_issued _ d r F Hin).
Qed.

Lemma post_generate_topic_gate_witness :
  requests_of (snd (Part000.app_post_generate
                      (always {| status := 200; body_text := envelope_around (js "{}") |})
                      silent_engine (Some (js "secret"))
                      (VObject [(js "topic", VString []); (js "prompt", integer 0)]) []))
  = [].
Proof.
  destruct (post_generate_topic_gate part_000
              (always {| status := 200; body_text := envelope_around (js "{}") |})
              silent_engine Part000.MODELS (Some (js "secret"))
              (VObject [(js "topic", VString []); (js "prompt", integer 0)]) [])
    as [H _].
  destruct (H (integer 0)) as [R _]; [reflexivity | reflexivity | exact R].
Defined.

(* ================================================================== *)
(** ** The loop over the models *)

Lemma for_of_failing it pre rest v t t1 :
  failing it pre t = Some t1 -> for_of it (pre ++ rest) v t = for_of it rest v t1.
Proof.
  revert t. induction pre as [|model pre IH]; intros t H; simpl in *.
  - now inversion H.
  - unfold bind at 1. destruct (it model t) as [[[r|]|e] t']; try discriminate.
    now apply IH.
Qed.

Lemma for_of_first_result it pre model post init t t1 t2 v :
  failing it pre t = Some t1 -> it model t1 = (Returned (Some v), t2) ->
  for_of it (pre ++ model :: post) init t = (Returned v, t2).
Proof.
  intros Hpre Hit. rewrite (for_of_failing it pre _ init t t1 Hpre).
  simpl. unfold bind. now rewrite Hit.
Qed.

Lemma for_of_all_fail it models init t t1 :
  failing it models t = Some t1 -> for_of it models init t = (Returned init, t1).
Proof.
  intros H. rewrite <- (app_nil_r models). now rewrite (for_of_failing it models [] init t t1 H).
Qed.

Lemma quiet_requests d : Forall (request_is (fun _ => False)) d -> requests_of d = [].
Proof.
  induction d as [|e d IH]; [reflexivity|].
  intros F. inversion F as [|? ? He Fd]; subst.
  destruct e; simpl in *; [contradiction | auto | auto].
Qed.

Lemma bind_quiet {A B} (m : M A) (k : A -> M B) t :
  (forall a, quiet (k a)) ->
  requests_of (snd (bind m k t)) = requests_of (snd (m t)).
Proof.
  intros Hk. unfold bind. destruct (m t) as [[a|e] t']; simpl; [|reflexivity].
  destruct (Hk a t') as [d [E F]]. rewrite E, requests_of_app, (quiet_requests d F).
  apply app_nil_r.
Qed.

Lemma try_catch_quiet {A} (m : M A) (h : exn -> M A) t :
  (forall e, quiet (h e)) ->
  requests_of (snd (try_catch m h t)) = requests_of (snd (m t)).
Proof.
  intros Hh. unfold try_catch. destruct (m t) as [[a|e] t']; simpl; [reflexivity|].
  destruct (Hh e t') as [d [E F]]. rewrite E, requests_of_app, (quiet_requests d F).
  apply app_nil_r.
Qed.

(** A call of the fetcher issues at most [k] requests, all of them the same,
    and at least one when [k] is positive. *)
Lemma ServerJs_retry_loop_requests net u o retries delay k i t :
  exists n,
    (n <= k)%nat /\ ((0 < k)%nat -> (1 <= n)%nat)
    /\ requests_of (snd (ServerJs.retry_loop net u o retries delay k i t))
       = requests_of t ++ repeat {| url := u; init := o |} n.
Proof.
  revert i t. induction k as [|k IH]; intros i t.
  - exists 0%nat. simpl. rewrite app_nil_r. repeat split; lia.
  - destruct (net (requests_of t) {| url := u; init := o |}) as [resp|msg] eqn:Hn.
    + destruct (ok resp) eqn:Hok.
      * rewrite (ServerJs_iteration_ok net u o retries delay resp k i t Hn Hok).
        exists 1%nat. simpl. rewrite requests_of_app. repeat split; lia.
      * destruct (Z.eq_dec (status resp) 429) as [H429|H429].
        { destruct (ServerJs_iteration_429 net u o retries delay resp k i t Hn H429) as [l ->].
          exists 1%nat. simpl. rewrite requests_of_app. repeat split; lia. }
        destruct (Z.eq_dec (status resp) 503) as [H503|H503].
        { destruct (ServerJs_iteration_503 net u o retries delay resp k i t Hn H503) as [l ->].
          destruct (IH (i + 1) (t ++ [Request {| url := u; init := o |}; Console warn [l];
                                      Sleep delay])) as [n [Hle [_ R]]].
          exists (S n). rewrite R, requests_of_app. simpl. rewrite <- app_assoc.
          repeat split; lia. }
        rewrite (ServerJs_iteration_other net u o retries delay resp k i t Hn Hok H429 H503).
        exists 1%nat. simpl. rewrite requests_of_app. repeat split; lia.
    + rewrite (ServerJs_iteration_rejected net u o retries delay msg k i t Hn).
      exists 1%nat. simpl. rewrite requests_of_app. repeat split; lia.
Qed.

Lemma Part000_retry_loop_requests net u o retries delay k i t :
  exists n,
    (n <= k)%nat /\ ((0 < k)%nat -> (1 <= n)%nat)
    /\ requests_of (snd (Part000.retry_loop net u o retries delay k i t))
       = requests_of t ++ repeat {| url := u; init := o |} n.
Proof.
  revert i t. induction k as [|k IH]; intros i t.
  - exists 0%nat. simpl. rewrite app_nil_r. repeat split; lia.
  - destruct (net (requests_of t) {| url := u; init := o |}) as [resp|msg] eqn:Hn.
    + destruct (ok resp) eqn:Hok.
      * rewrite (Part000_iteration_ok net u o retries delay resp k i t Hn Hok).
        exists 1%nat. simpl. rewrite requests_of_app. repeat split; lia.
      * destruct (Z.eq_dec (status resp) 429) as [H429|H429].
        { rewrite (Part000_iteration_429 net u o retries delay resp k i t Hn H429).
          exists 1%nat. simpl. rewrite requests_of_app. repeat split; lia. }
        destruct (Z.eq_dec (status resp) 503) as [H503|H503].
        { rewrite (Part000_iteration_503 net u o retries delay resp k i t Hn H503).
          destruct (IH (i + 1) (t ++ [Request {| url := u; init := o |}; Sleep delay]))
            as [n [Hle [_ R]]].
          exists (S n). rewrite R, requests_of_app. simpl. rewrite <- app_assoc.
          repeat split; lia. }
        rewrite (Part000_iteration_other net u o retries delay resp k i t Hn Hok H429 H503).
        exists 1%nat. simpl. rewrite requests_of_app. repeat split; lia.
    + rewrite (Part000_iteration_rejected net u o retries delay msg k i t Hn).
      exists 1%nat. simpl. rewrite requests_of_app. repeat split; lia.
Qed.

(** Every exception of an attempt is caught inside the iteration. *)
Lemma iteration_returns f net engine key prompt model t :
  exists r, fst (iteration_of f net engine key prompt model t) = Returned r.
Proof.
  destruct f; simpl.
  - unfold ServerJs.iteration, bind at 1, console, emit, try_catch.
    match goal with |- context [match ?x with _ => _ end] => destruct x as [[a|e] t'] end;
      simpl; eauto.
  - unfold Part000.iteration, try_catch.
    match goal with |- context [match ?x with _ => _ end] => destruct x as [[a|e] t'] end;
      simpl; eauto.
Qed.

(** An iteration issues a burst of one to three requests for its model. *)
Lemma iteration_requests f net engine key prompt model t :
  exists n,
    (1 <= n <= 3)%nat
    /\ requests_of (snd (iteration_of f net engine key prompt model t))
       = requests_of t ++ repeat (request_for f key prompt model) n.
Proof.
  destruct f; simpl.
  - destruct (ServerJs_retry_loop_requests net (api_url model key) (ServerJs.options prompt)
                3 2000 3 0 (t ++ [Console log [[55357; 56633]%N ++ js " Trying model: " ++ model]]))
      as [n [Hle [Hpos R]]].
    exists n. split; [lia|].
    unfold ServerJs.iteration. rewrite bind_console.
    rewrite try_catch_quiet by (intros e; unfold quiet; repeat issues_step).
    rewrite bind_quiet by (intros a; unfold quiet; repeat issues_step).
    unfold ServerJs.attempt.
    rewrite bind_quiet by (intros a; unfold quiet; repeat issues_step).
    unfold ServerJs.fetchWithRetry. change (Z.to_nat 3) with 3%nat.
    rewrite R. trace_norm. reflexivity.
  - destruct (Part000_retry_loop_requests net (api_url model key) (Part000.options prompt)
                3 2000 3 0 t) as [n [Hle [Hpos R]]].
    exists n. split; [lia|].
    unfold Part000.iteration.
    rewrite try_catch_quiet by (intros e; unfold quiet; repeat issues_step).
    rewrite bind_quiet by (intros a; unfold quiet; repeat issues_step).
    unfold Part000.attempt.
    rewrite bind_quiet by (intros a; unfold quiet; repeat issues_step).
    unfold Part000.fetchWithRetry. change (Z.to_nat 3) with 3%nat.
    exact R.
Qed.

Lemma bursts_snoc f key prompt models ns model n :
  List.length ns = List.length models ->
  bursts f key prompt (models ++ [model]) (ns ++ [n])
  = bursts f key prompt models ns ++ repeat (request_for f key prompt model) n.
Proof.
  revert ns. induction models as [|m models IH]; intros [|k ns] H; simpl in *; try discriminate.
  - now rewrite app_nil_r.
  - rewrite IH by lia. now rewrite app_assoc.
Qed.

(** The requests of a run of failing iterations: one burst per model, in
    the order of the list. *)
Lemma failing_requests f net engine key prompt models t t1 :
  failing (iteration_of f net engine key prompt) models t = Some t1 ->
  exists ns,
    List.length ns = List.length models
    /\ Forall (fun n => (1 <= n <= 3)%nat) ns
    /\ requests_of t1 = requests_of t ++ bursts f key prompt models ns.
Proof.
  revert t. induction models as [|model models IH]; intros t H; simpl in H.
  - inversion H; subst. exists []. simpl. now rewrite app_nil_r.
  - destruct (iteration_requests f net engine key prompt model t) as [n [Hn R]].
    destruct (iteration_of f net engine key prompt model t) as [[[r|]|e] t'];
      try discriminate.
    destruct (IH t' H) as [ns [Hlen [Hall R1]]].
    exists (n :: ns). simpl in *. split; [lia|]. split; [now constructor|].
    now rewrite R1, R, <- app_assoc.
Qed.

Lemma envelope_text_opt_strict data x :
  envelope_text data = Returned x -> envelope_text_opt data = x.
Proof.
  unfold envelope_text, envelope_text_opt, get_opt, get0_opt, obind.
  destruct (get data (js "candidates")) as [a1|]; [|discriminate].
  destruct (get0 a1) as [a2|]; [|discriminate].
  destruct (get a2 (js "content")) as [a3|]; [|discriminate].
  destruct (get a3 (js "parts")) as [a4|]; [|discriminate].
  destruct (get0 a4) as [a5|]; [|discriminate].
  destruct (get a5 (js "text")) as [a6|]; [|discriminate].
  intros H; now inversion H.
Qed.

(** An iteration whose call of the fetcher returns a response with a
    well-formed envelope, from whose text the extractor returns [v], assigns
    [v] and breaks. *)
Lemma iteration_success f net engine key prompt model t t2 resp data s v :
  fetchWithRetry_of f net (api_url model key) (options_of f prompt) 3 2000
    (at_fetch f model t) = (Returned resp, t2) ->
  JSON_parse (body_text resp) = Returned data ->
  envelope_text data = Returned (VString s) -> s <> [] ->
  extractJSON_of f (VString s) = Returned v ->
  exists t', iteration_of f net engine key prompt model t = (Returned (Some v), t').
Proof.
  intros Hfetch Hdata Henv Hs Hv.
  destruct f; cbn [fetchWithRetry_of options_of at_fetch extractJSON_of iteration_of] in *.
  - unfold ServerJs.iteration, ServerJs.attempt. rewrite bind_console.
    unfold try_catch, bind. rewrite Hfetch.
    unfold json, lift. rewrite Hdata, (envelope_text_opt_strict _ _ Henv), Henv, Hv.
    destruct s as [|c s]; [contradiction|]. simpl. eauto.
  - unfold Part000.iteration, Part000.attempt.
    unfold try_catch, bind. rewrite Hfetch.
    unfold json, lift. rewrite Hdata, Henv, Hv. simpl. eauto.
Qed.

(** A first response that is a success ends the call of the fetcher. *)
Lemma fetchWithRetry_first_ok f net u o retries delay t resp :
  0 < retries ->
  net (requests_of t) {| url := u; init := o |} = Responds resp -> ok resp = true ->
  fetchWithRetry_of f net u o retries delay t =
  (Returned resp, t ++ [Request {| url := u; init := o |}]).
Proof.
  intros Hr Hn Hok. destruct (Z.to_nat retries) as [|k] eqn:Ek; [lia|].
  destruct f; simpl.
  - unfold ServerJs.fetchWithRetry. rewrite Ek. now apply ServerJs_iteration_ok.
  - unfold Part000.fetchWithRetry. rewrite Ek. now apply Part000_iteration_ok.
Qed.

Lemma ExtractedSite_truthy v : ExtractedSite v -> ToBoolean v = true.
Proof. intros [ms [h [c [j [-> _]]]]]. reflexivity. Qed.

(** The orchestrator returns the first truthy result of an iteration that
    follows failing ones. *)
Lemma orchestrate_first_truthy f net engine key prompt pre model post t t1 t2 v :
  failing (iteration_of f net engine key prompt) pre t = Some t1 ->
  iteration_of f net engine key prompt model t1 = (Returned (Some v), t2) ->
  ToBoolean v = true ->
  orchestrate_of f net engine (pre ++ model :: post) key prompt t = (Returned v, t2).
Proof.
  intros Hpre Hit Hv. destruct f; simpl in *.
  - unfold ServerJs.orchestrate, bind.
    rewrite (for_of_first_result _ pre model post VNull t t1 t2 v Hpre Hit). now rewrite Hv.
  - unfold Part000.orchestrate, bind.
    rewrite (for_of_first_result _ pre model post VNull t t1 t2 v Hpre Hit). now rewrite Hv.
Qed.

(** When every iteration fails, the orchestrator throws its error. *)
Lemma orchestrate_all_fail f net engine key prompt models t t1 :
  failing (iteration_of f net engine key prompt) models t = Some t1 ->
  orchestrate_of f net engine models key prompt t = (Thrown (AllModelsExhausted f), t1).
Proof.
  intros H. destruct f; simpl in *.
  - unfold ServerJs.orchestrate, bind. now rewrite (for_of_all_fail _ models VNull t t1 H).
  - unfold Part000.orchestrate, bind. now rewrite (for_of_all_fail _ models VNull t t1 H).
Qed.

Lemma empty_object_no_site : ~ ExtractedSite (VObject []).
Proof.
  intros [ms [h [c [j [E [H _]]]]]]. inversion E; subst. discriminate.
Qed.

(** The model list [[A; B]], where the generated text of [A] is [{}] and
    the one of [B] is a site: the only attempt that yields an ExtractedSite
    is the one for [B], but the orchestrator of either file returns the
    empty object of [A], after the one request for [A]; [B] is never
    tried. *)
Lemma orchestrate_returns_first_value :
  ExtractedSite site_abc
  /\ ~ ExtractedSite (VObject [])
  /\ fst (Part000.iteration empty_then_site (js "secret") (Part000.template (js "cats"))
            (js "A") [])
     = Returned (Some (VObject []))
  /\ fst (Part000.iteration empty_then_site (js "secret") (Part000.template (js "cats"))
            (js "B") [])
     = Returned (Some site_abc)
  /\ Part000.orchestrate empty_then_site [js "A"; js "B"] (js "secret")
       (Part000.template (js "cats")) []
     = (Returned (VObject []),
        [Request (request_for part_000 (js "secret") (Part000.template (js "cats")) (js "A"))])
  /\ fst (ServerJs.iteration empty_then_site silent_engine (js "secret")
            (ServerJs.template (js "cats")) (js "A") [])
     = Returned (Some (VObject []))
  /\ fst (ServerJs.iteration empty_then_site silent_engine (js "secret")
            (ServerJs.template (js "cats")) (js "B") [])
     = Returned (Some site_abc)
  /\ fst (ServerJs.orchestrate empty_then_site silent_engine [js "A"; js "B"] (js "secret")
            (ServerJs.template (js "cats")) [])
     = Returned (VObject [])
  /\ requests_of (snd (ServerJs.orchestrate empty_then_site silent_engine [js "A"; js "B"]
                         (js "secret") (ServerJs.template (js "cats")) []))
     = [request_for server_js (js "secret") (ServerJs.template (js "cats")) (js "A")].
Proof.
  split.
  { exists [ (js "html", VString (js "a")); (js "css", VString (js "b"));
             (js "js", VString (js "c")) ], (js "a"), (js "b"), (js "c").
    repeat split. }
  split; [exact empty_object_no_site|].
  repeat split.
Qed.

(** C2, amended. For every model list [pre ++ model :: post] in which the
    attempts for [pre], run in order, all fail, and the attempt for [model]
    yields a truthy value [v] (any object or array is one, whatever its
    members): the orchestrator returns [v], and the trace it leaves is the
    one of these attempts alone.  Its requests are one burst (of one to
    three equal requests) for each model of [pre ++ [model]], in the order
    of the list, and none for a model of [post]. *)
Theorem orchestrate_first_success (f : source_file) (net : transport)
  (engine : runtime) (key prompt : jsstring)
  (pre : list jsstring) (model : jsstring) (post : list jsstring)
  (t t1 t2 : trace) (v : value) :
  failing (iteration_of f net engine key prompt) pre t = Some t1 ->
  iteration_of f net engine key prompt model t1 = (Returned (Some v), t2) ->
  ToBoolean v = true ->
  orchestrate_of f net engine (pre ++ model :: post) key prompt t = (Returned v, t2)
  /\ exists ns,
       List.length ns = List.length (pre ++ [model])
       /\ Forall (fun n => (1 <= n <= 3)%nat) ns
       /\ requests_of t2 = requests_of t ++ bursts f key prompt (pre ++ [model]) ns.
Proof.
  intros Hpre Hit Hv. split.
  - exact (orchestrate_first_truthy f net engine key prompt pre model post t t1 t2 v
             Hpre Hit Hv).
  - destruct (failing_requests f net engine key prompt pre t t1 Hpre) as [ns [Hlen [Hall R]]].
    destruct (iteration_requests f net engine key prompt model t1) as [n [Hn Rn]].
    rewrite Hit in Rn. simpl in Rn.
    exists (ns ++ [n]). split; [rewrite !length_app; simpl; lia|].
    split; [apply Forall_app; split; [exact Hall | now constructor]|].
    rewrite (bursts_snoc f key prompt pre ns model n Hlen), Rn, R. now rewrite app_assoc.
Qed.

Lemma orchestrate_first_success_witness :
  fst (Part000.orchestrate
         (one_model_down (js "A") (js "secret")
            {| status := 200; body_text := envelope_around escaped_site |})
         [js "A"; js "B"] (js "secret") (Part000.template (js "cats")) [])
  = Returned site_abc.
Proof.
  edestruct (orchestrate_first_success part_000
               (one_model_down (js "A") (js "secret")
                  {| status := 200; body_text := envelope_around escaped_site |})
               silent_engine (js "secret") (Part000.template (js "cats"))
               [js "A"] (js "B") [] [] ) as [E _].
  - reflexivity.
  - reflexivity.
  - reflexivity.
  - simpl in E. rewrite E. reflexivity.
Defined.

(* ================================================================== *)
(** ** The handler: replies *)

(** The handler after the tests of the credential and of the topic: the
    prompt, the loop and the reply. *)
Lemma post_generate_unprintable f net engine models key req_body topic t e :
  select_topic req_body = Returned topic -> ToBoolean topic = true ->
  key_missing key = false ->
  prompt_of f engine topic = Thrown e ->
  fst (post_generate_of f net engine models key req_body t) =
  Returned {| code := 503; payload := error_body (message_of engine e) |}
  /\ requests_of (snd (post_generate_of f net engine models key req_body t)) = requests_of t.
Proof.
  intros Hsel Htruthy Hkey Hp. destruct f; cbn [post_generate_of prompt_of] in *.
  - unfold ServerJs.post_generate, try_catch, bind, lift.
    rewrite Hsel, Hkey, Htruthy. cbn [negb]. rewrite Hp. cbn [console emit].
    rewrite res_json_error. unfold ret.
    split; [reflexivity | cbn [snd]; trace_norm; reflexivity].
  - unfold Part000.post_generate, try_catch, bind, lift.
    rewrite Hsel, Hkey, Htruthy. cbn [negb]. rewrite Hp.
    rewrite res_json_error. unfold ret. split; reflexivity.
Qed.

Lemma post_generate_success f net engine models key req_body topic prompt t t' v body :
  select_topic req_body = Returned topic -> ToBoolean topic = true ->
  key_missing key = false ->
  prompt_of f engine topic = Returned prompt ->
  orchestrate_of f net engine models (key_string key) prompt t = (Returned v, t') ->
  JSON_stringify engine v = Returned body ->
  post_generate_of f net engine models key req_body t =
  (Returned {| code := 200; payload := sent body |}, t').
Proof.
  intros Hsel Htruthy Hkey Hp Ho Hs. destruct f; cbn [post_generate_of prompt_of orchestrate_of] in *.
  - unfold ServerJs.post_generate, try_catch, bind, lift.
    rewrite Hsel, Hkey, Htruthy. cbn [negb]. rewrite Hp, Ho.
    now rewrite (res_json_returned engine 200 v body t' Hs).
  - unfold Part000.post_generate, try_catch, bind, lift.
    rewrite Hsel, Hkey, Htruthy. cbn [negb]. rewrite Hp, Ho.
    now rewrite (res_json_returned engine 200 v body t' Hs).
Qed.

Lemma post_generate_overflow f net engine models key req_body topic prompt t t' v e :
  select_topic req_body = Returned topic -> ToBoolean topic = true ->
  key_missing key = false ->
  prompt_of f engine topic = Returned prompt ->
  orchestrate_of f net engine models (key_string key) prompt t = (Returned v, t') ->
  JSON_stringify engine v = Thrown e ->
  fst (post_generate_of f net engine models key req_body t) =
  Returned {| code := 503; payload := error_body (message_of engine e) |}
  /\ requests_of (snd (post_generate_of f net engine models key req_body t)) = requests_of t'.
Proof.
  intros Hsel Htruthy Hkey Hp Ho Hs. destruct f; cbn [post_generate_of prompt_of orchestrate_of] in *.
  - unfold ServerJs.post_generate, try_catch, bind, lift.
    rewrite Hsel, Hkey, Htruthy. cbn [negb]. rewrite Hp, Ho.
    rewrite (res_json_thrown engine 200 v e t' Hs). cbn [console emit].
    rewrite res_json_error. unfold ret.
    split; [reflexivity | cbn [snd]; trace_norm; reflexivity].
  - unfold Part000.post_generate, try_catch, bind, lift.
    rewrite Hsel, Hkey, Htruthy. cbn [negb]. rewrite Hp, Ho.
    rewrite (res_json_thrown engine 200 v e t' Hs).
    rewrite res_json_error. unfold ret. split; reflexivity.
Qed.

Lemma post_generate_failure f net engine models key req_body topic prompt t t' e :
  select_topic req_body = Returned topic -> ToBoolean topic = true ->
  key_missing key = false ->
  prompt_of f engine topic = Returned prompt ->
  orchestrate_of f net engine models (key_string key) prompt t = (Thrown e, t') ->
  fst (post_generate_of f net engine models key req_body t) =
  Returned {| code := 503; payload := error_body (message_of engine e) |}
  /\ requests_of (snd (post_generate_of f net engine models key req_body t)) = requests_of t'.
Proof.
  intros Hsel Htruthy Hkey Hp Ho. destruct f; cbn [post_generate_of prompt_of orchestrate_of] in *.
  - unfold ServerJs.post_generate, try_catch, bind, lift.
    rewrite Hsel, Hkey, Htruthy. cbn [negb]. rewrite Hp, Ho. cbn [console emit].
    rewrite res_json_error. unfold ret.
    split; [reflexivity | cbn [snd]; trace_norm; reflexivity].
  - unfold Part000.post_generate, try_catch, bind, lift.
    rewrite Hsel, Hkey, Htruthy. cbn [negb]. rewrite Hp, Ho.
    rewrite res_json_error. unfold ret. split; reflexivity.
Qed.

(** The generated text [{"html":1e999}] lacks [css] and [js]; its number is
    beyond the range of the doubles.  The extractor of either file returns
    the object with that number, and the handler replies 200, but the body
    it sends is [{"html":null}], which denotes another value. *)
Lemma number_beyond_range_sent_as_null :
  ServerJs.extractJSON (VString (jsq "{'html':1e999}"))
  = Returned (VObject [(js "html", VNumber beyond_range)])
  /\ Part000.extractJSON (VString (jsq "{'html':1e999}"))
     = Returned (VObject [(js "html", VNumber beyond_range)])
  /\ fst (ServerJs.app_post_generate
            (always {| status := 200; body_text := envelope_around (jsq "{\'html\':1e999}") |})
            silent_engine (Some (js "secret")) (body_with_topic (VString (js "cats"))) [])
     = Returned {| code := 200; payload := jsq "{'html':null}" |}
  /\ fst (Part000.app_post_generate
            (always {| status := 200; body_text := envelope_around (jsq "{\'html\':1e999}") |})
            silent_engine (Some (js "secret")) (body_with_topic (VString (js "cats"))) [])
     = Returned {| code := 200; payload := jsq "{'html':null}" |}
  /\ JSON_parse (jsq "{'html':null}") = Returned (VObject [(js "html", VNull)])
  /\ JSON_parse (jsq "{'html':null}") <> Returned (VObject [(js "html", VNumber beyond_range)]).
Proof. repeat split. discriminate. Qed.

(** C9, amended. Neither the extractor nor the handler looks at the members
    of the parsed value.  When the prompt has been built, the attempts for
    the models before [model] fail, and the fetcher returns for [model] a
    response whose envelope holds a text with a brace-delimited JSON span
    of value [v], the extractor returns [v], whatever the members of [v]:
    also when [html], [css] or [js] is missing.  Unless the serialization
    of [v] exhausts the call stack, the handler then replies 200 and the
    body is [JSON.stringify(v)]. *)
Theorem no_schema_validation (f : source_file) (net : transport)
  (engine : runtime) (key : option jsstring) (req_body topic : value)
  (prompt : jsstring) (pre : list jsstring) (model : jsstring) (post : list jsstring)
  (t t1 t2 : trace) (resp : response) (data : value) (s : jsstring) (v : value) :
  key_missing key = false ->
  select_topic req_body = Returned topic -> ToBoolean topic = true ->
  prompt_of f engine topic = Returned prompt ->
  failing (iteration_of f net engine (key_string key) prompt) pre t = Some t1 ->
  fetchWithRetry_of f net (api_url model (key_string key)) (options_of f prompt) 3 2000
    (at_fetch f model t1) = (Returned resp, t2) ->
  JSON_parse (body_text resp) = Returned data ->
  envelope_text data = Returned (VString s) ->
  0 <= indexOf s (cu "{") <= lastIndexOf s (cu "}") ->
  JSON_parse (substring s (indexOf s (cu "{")) (lastIndexOf s (cu "}") + 1)) = Returned v ->
  JSON_stringify engine v <> Thrown RangeError ->
  extractJSON_of f (VString s) = Returned v
  /\ exists body t',
       JSON_stringify engine v = Returned (Some body)
       /\ post_generate_of f net engine (pre ++ model :: post) key req_body t =
          (Returned {| code := 200; payload := body |}, t').
Proof.
  intros Hkey Hsel Htruthy Hprompt Hpre Hfetch Hdata Henv Hle Hp Hstack.
  destruct (extractJSON_in_order f s v Hle Hp) as [Hv [ms Hobj]].
  split; [exact Hv|].
  assert (Hs : s <> []).
  { intros ->. vm_compute in Hle. destruct Hle as [_ Hle]. now apply Hle. }
  destruct (iteration_success f net engine (key_string key) prompt model t1 t2 resp data s v
              Hfetch Hdata Henv Hs Hv) as [t' Hit].
  assert (Htv : ToBoolean v = true) by (subst v; reflexivity).
  destruct (JSON_stringify_cases engine v (truthy_defined v Htv)) as [[body Hbody]|Hthrown];
    [|contradiction].
  exists body, t'. split; [exact Hbody|].
  apply (post_generate_success f net engine _ key req_body topic prompt t t' v (Some body)
           Hsel Htruthy Hkey Hprompt); [|exact Hbody].
  exact (orchestrate_first_truthy f net engine (key_string key) prompt pre model post t t1 t' v
           Hpre Hit Htv).
Qed.

Lemma no_schema_validation_witness :
  fst (ServerJs.app_post_generate
         (always {| status := 200;
                    body_text := envelope_around (jsq "Sure: {\'html\':\'<h1>x</h1>\'} Done.") |})
         silent_engine (Some (js "secret")) (body_with_topic (VString (js "cats"))) [])
  = Returned {| code := 200; payload := jsq "{'html':'<h1>x</h1>'}" |}.
Proof.
  edestruct (no_schema_validation server_js
               (always {| status := 200;
                          body_text :=
                            envelope_around (jsq "Sure: {\'html\':\'<h1>x</h1>\'} Done.") |})
               silent_engine (Some (js "secret")) (body_with_topic (VString (js "cats")))
               (VString (js "cats")) (ServerJs.template (js "cats")) [] (js "gemini-3.0")
               [js "gemini-2.5-flash-lite"; js "gemini-2.5-flash"; js "gemini-2.5-pro"] [] [])
    as [_ [body [t' [B E]]]].
  - reflexivity.
  - reflexivity.
  - reflexivity.
  - reflexivity.
  - reflexivity.
  - reflexivity.
  - reflexivity.
  - reflexivity.
  - vm_compute; split; discriminate.
  - reflexivity.
  - discriminate.
  - unfold ServerJs.app_post_generate, ServerJs.MODELS. simpl in E. rewrite E.
    vm_compute in B. inversion B. reflexivity.
Defined.

(* ================================================================== *)
(** ** The handler: exhaustion of the model list *)

(** The loop either runs through failing iterations only, or stops at the
    first iteration that assigns a value. *)
Lemma for_of_cases it models init t :
  (forall model t0, exists r, fst (it model t0) = Returned r) ->
  (exists t1, failing it models t = Some t1 /\ for_of it models init t = (Returned init, t1))
  \/ (exists pre model post t1 t2 v,
        models = pre ++ model :: post
        /\ failing it pre t = Some t1
        /\ it model t1 = (Returned (Some v), t2)
        /\ for_of it models init t = (Returned v, t2)).
Proof.
  intros Hit. revert t. induction models as [|model models IH]; intros t.
  - left. exists t. now split.
  - destruct (Hit model t) as [r Hr].
    destruct (it model t) as [[[v|]|e] t'] eqn:E; simpl in Hr; try discriminate.
    + right. exists [], model, models, t, t', v. simpl. unfold bind. rewrite E. now repeat split.
    + destruct (IH t') as [[t1 [Hf Hfor]] | [pre [m [post [t1 [t2 [v [Hm [Hf [Hi Hfor]]]]]]]]]].
      * left. exists t1. simpl. unfold bind. rewrite E. now split.
      * right. exists (model :: pre), m, post, t1, t2, v. simpl. unfold bind. rewrite E.
        subst models. now repeat split.
Qed.

Lemma failing_first_result it pre model post t t1 t2 v :
  failing it pre t = Some t1 -> it model t1 = (Returned (Some v), t2) ->
  failing it (pre ++ model :: post) t = None.
Proof.
  revert t. induction pre as [|m pre IH]; intros t Hf Hi; simpl in *.
  - inversion Hf; subst. now rewrite Hi.
  - destruct (it m t) as [[[r|]|e] t']; try reflexivity. now apply IH.
Qed.

(** X1. The orchestrator throws its error exactly when every iteration
    failed, or the first iteration that did not fail assigned a falsy value. *)
Lemma orchestrate_exhausted_iff f net engine key prompt models t :
  fst (orchestrate_of f net engine models key prompt t) = Thrown (AllModelsExhausted f)
  <-> (exists t1, failing (iteration_of f net engine key prompt) models t = Some t1)
      \/ (exists pre model post t1 t2 v,
            models = pre ++ model :: post
            /\ failing (iteration_of f net engine key prompt) pre t = Some t1
            /\ iteration_of f net engine key prompt model t1 = (Returned (Some v), t2)
            /\ ToBoolean v = false).
Proof.
  assert (Hcases := for_of_cases (iteration_of f net engine key prompt) models VNull t
                      (iteration_returns f net engine key prompt)).
  assert (Hrun : forall x t',
             for_of (iteration_of f net engine key prompt) models VNull t = (Returned x, t') ->
             fst (orchestrate_of f net engine models key prompt t) =
             if ToBoolean x then Returned x else Thrown (AllModelsExhausted f)).
  { intros x t' E. destruct f; simpl in *.
    - unfold ServerJs.orchestrate, bind. rewrite E. now destruct (ToBoolean x).
    - unfold Part000.orchestrate, bind. rewrite E. now destruct (ToBoolean x). }
  split.
  - intros Hthrown.
    destruct Hcases as [[t1 [Hf _]] | [pre [m [post [t1 [t2 [v [Hm [Hf [Hi Hfor]]]]]]]]]].
    + left. eauto.
    + right. exists pre, m, post, t1, t2, v. repeat split; try assumption.
      rewrite (Hrun v t2 Hfor) in Hthrown. now destruct (ToBoolean v).
  - intros [[t1 Hf] | [pre [m [post [t1 [t2 [v [Hm [Hf [Hi Hv]]]]]]]]]].
    + now rewrite (orchestrate_all_fail f net engine key prompt models t t1 Hf).
    + subst models.
      rewrite (Hrun v t2 (for_of_first_result _ pre m post VNull t t1 t2 v Hf Hi)).
      now rewrite Hv.
Qed.

(** C3, at its failing input.  The first model answers with an envelope
    whose generated text is [} null {].  In both files the iteration for
    that model does not fail: it assigns [null] and breaks ([server.js] logs
    the success).  The handler then replies 503 with the all-models error,
    after one request: the other models were never tried. *)
Theorem exhausted_after_successful_attempt :
  ServerJs.app_post_generate null_between_braces silent_engine (Some (js "secret"))
    (body_with_topic (VString (js "cats"))) []
  = (Returned {| code := 503;
                 payload := error_body
                              (js "All Gemini models are unavailable or quota exhausted.") |},
     [ Console log [[55357; 56633]%N ++ js " Trying model: gemini-3.0"];
       Request (request_for server_js (js "secret") (ServerJs.template (js "cats"))
                  (js "gemini-3.0"));
       Console log [[9989%N] ++ js " Success using model: gemini-3.0"];
       Console error [[10060%N] ++ js " Generation error:";
                      js "All Gemini models are unavailable or quota exhausted."] ])
  /\ failing (ServerJs.iteration null_between_braces silent_engine (js "secret")
                (ServerJs.template (js "cats"))) ServerJs.MODELS [] = None
  /\ Part000.app_post_generate null_between_braces silent_engine (Some (js "secret"))
       (body_with_topic (VString (js "cats"))) []
     = (Returned {| code := 503;
                    payload := error_body
                                 (js "All Gemini models unavailable or quota exhausted") |},
        [ Request (request_for part_000 (js "secret") (Part000.template (js "cats"))
                     (js "gemini-2.5-flash-lite")) ])
  /\ fst (Part000.iteration null_between_braces (js "secret") (Part000.template (js "cats"))
            (js "gemini-2.5-flash-lite") [])
     = Returned (Some VNull).
Proof. repeat split. Qed.

(** X3. Every exception of an attempt is caught inside its iteration, which
    completes with or without a result. *)
Lemma iteration_catches f net engine key prompt model t :
  exists r t', iteration_of f net engine key prompt model t = (Returned r, t').
Proof.
  destruct (iteration_returns f net engine key prompt model t) as [r Hr].
  destruct (iteration_of f net engine key prompt model t) as [o t'].
  simpl in Hr. subst o. eauto.
Qed.

(* ================================================================== *)
(** ** The retrying fetcher: every call *)

Lemma fetchWithRetry_loop f net u o retries delay :
  fetchWithRetry_of f net u o retries delay =
  retry_loop_of f net u o retries delay (Z.to_nat retries) 0.
Proof. destruct f; reflexivity. Qed.

(** One iteration of the loop of either file, by the answer of the
    transport. *)
Lemma retry_loop_step f net u o retries delay k i t :
  match net (requests_of t) {| url := u; init := o |} with
  | Responds resp =>
      if status resp =? 503 then
        exists t1,
          retry_loop_of f net u o retries delay (S k) i t =
          retry_loop_of f net u o retries delay k (i + 1) t1
          /\ requests_of t1 = requests_of t ++ [{| url := u; init := o |}]
          /\ sleeps_of t1 = sleeps_of t ++ [delay]
      else
        exists t1,
          retry_loop_of f net u o retries delay (S k) i t =
          (verdict f (Responds resp), t1)
          /\ requests_of t1 = requests_of t ++ [{| url := u; init := o |}]
          /\ sleeps_of t1 = sleeps_of t
  | Rejects msg =>
      exists t1,
        retry_loop_of f net u o retries delay (S k) i t = (verdict f (Rejects msg), t1)
        /\ requests_of t1 = requests_of t ++ [{| url := u; init := o |}]
        /\ sleeps_of t1 = sleeps_of t
  end.
Proof.
  destruct (net (requests_of t) {| url := u; init := o |}) as [resp|msg] eqn:Hn.
  - destruct (Z.eqb_spec (status resp) 503) as [H503|H503].
    + destruct f; cbn [retry_loop_of].
      * destruct (ServerJs_iteration_503 net u o retries delay resp k i t Hn H503) as [l ->].
        eexists; split; [reflexivity|]. split; trace_norm; reflexivity.
      * rewrite (Part000_iteration_503 net u o retries delay resp k i t Hn H503).
        eexists; split; [reflexivity|]. split; trace_norm; reflexivity.
    + unfold verdict. destruct (ok resp) eqn:Hok.
      * destruct f; cbn [retry_loop_of].
        -- rewrite (ServerJs_iteration_ok net u o retries delay resp k i t Hn Hok).
           eexists; split; [reflexivity|]. split; trace_norm; reflexivity.
        -- rewrite (Part000_iteration_ok net u o retries delay resp k i t Hn Hok).
           eexists; split; [reflexivity|]. split; trace_norm; reflexivity.
      * destruct (Z.eqb_spec (status resp) 429) as [H429|H429];
          destruct f; cbn [retry_loop_of].
        -- destruct (ServerJs_iteration_429 net u o retries delay resp k i t Hn H429) as [l ->].
           eexists; split; [reflexivity|]. split; trace_norm; reflexivity.
        -- rewrite (Part000_iteration_429 net u o retries delay resp k i t Hn H429).
           eexists; split; [reflexivity|]. split; trace_norm; reflexivity.
        -- rewrite (ServerJs_iteration_other net u o retries delay resp k i t Hn Hok H429 H503).
           eexists; split; [reflexivity|]. split; trace_norm; reflexivity.
        -- rewrite (Part000_iteration_other net u o retries delay resp k i t Hn Hok H429 H503).
           eexists; split; [reflexivity|]. split; trace_norm; reflexivity.
  - destruct f; cbn [retry_loop_of verdict].
    + rewrite (ServerJs_iteration_rejected net u o retries delay msg k i t Hn).
      eexists; split; [reflexivity|]. split; trace_norm; reflexivity.
    + rewrite (Part000_iteration_rejected net u o retries delay msg k i t Hn).
      eexists; split; [reflexivity|]. split; trace_norm; reflexivity.
Qed.

Lemma retry_loop_done f net u o retries delay i t :
  retry_loop_of f net u o retries delay 0 i t = (Thrown (TransientExhausted f), t).
Proof. destruct f; reflexivity. Qed.

Lemma repeat_snoc {A} (x : A) n : repeat x n ++ [x] = x :: repeat x n.
Proof. induction n as [|n IH]; simpl; [reflexivity | now rewrite IH]. Qed.

(** The loop after [j] overloaded answers in a row. *)
Lemma retry_loop_overloaded f net u o retries delay j :
  forall k i t,
    (forall m, (m < j)%nat ->
       overloaded (net (requests_of t ++ repeat {| url := u; init := o |} m)
                     {| url := u; init := o |})) ->
    exists t1,
      retry_loop_of f net u o retries delay (j + k) i t =
      retry_loop_of f net u o retries delay k (i + Z.of_nat j) t1
      /\ requests_of t1 = requests_of t ++ repeat {| url := u; init := o |} j
      /\ sleeps_of t1 = sleeps_of t ++ repeat delay j.
Proof.
  induction j as [|j IH]; intros k i t Hov.
  - exists t. simpl. rewrite Z.add_0_r, !app_nil_r. now repeat split.
  - destruct (Hov 0%nat ltac:(lia)) as [resp [Hn H503]]. simpl in Hn. rewrite app_nil_r in Hn.
    pose proof (retry_loop_step f net u o retries delay (j + k) i t) as Hstep.
    rewrite Hn, H503 in Hstep. simpl in Hstep. destruct Hstep as [t1 [E [R Sl]]].
    destruct (IH k (i + 1) t1) as [t2 [E2 [R2 Sl2]]].
    { intros m Hm. rewrite R, <- app_assoc. apply (Hov (S m)). lia. }
    exists t2. simpl. rewrite E, E2.
    replace (i + 1 + Z.of_nat j) with (i + Z.pos (Pos.of_succ_nat j)) by lia.
    split; [reflexivity|]. rewrite R2, Sl2, R, Sl, <- !app_assoc. now split.
Qed.

Lemma not_overloaded_status resp : ~ overloaded (Responds resp) -> status resp <> 503.
Proof. intros H E. apply H. exists resp. now split. Qed.

(** The requests and sleeps of a run of the loop, and what it returns. *)
Lemma retry_loop_shape f net u o retries delay k :
  forall i t,
  exists n s,
    requests_of (snd (retry_loop_of f net u o retries delay k i t))
    = requests_of t ++ repeat {| url := u; init := o |} n
    /\ sleeps_of (snd (retry_loop_of f net u o retries delay k i t))
       = sleeps_of t ++ repeat delay s
    /\ (n <= k)%nat /\ (s <= n <= S s)%nat
    /\ forall resp,
         fst (retry_loop_of f net u o retries delay k i t) = Returned resp ->
         ok resp = true /\ n = S s
         /\ net (requests_of t ++ repeat {| url := u; init := o |} s)
              {| url := u; init := o |} = Responds resp.
Proof.
  induction k as [|k IH]; intros i t.
  - exists 0%nat, 0%nat. rewrite retry_loop_done. simpl. rewrite !app_nil_r.
    repeat split; try lia; discriminate.
  - pose proof (retry_loop_step f net u o retries delay k i t) as Hstep.
    destruct (net (requests_of t) {| url := u; init := o |}) as [resp|msg] eqn:Hn.
    + destruct (status resp =? 503) eqn:H503.
      * destruct Hstep as [t1 [E [R Sl]]]. rewrite E.
        destruct (IH (i + 1) t1) as [n [s [Rn [Sn [Hle [Hs Hret]]]]]].
        exists (S n), (S s). rewrite Rn, Sn, R, Sl, <- !app_assoc. simpl.
        repeat split; try lia.
        -- now apply Hret.
        -- apply Hret in H. lia.
        -- apply Hret in H. destruct H as [_ [_ H]]. now rewrite R, <- app_assoc in H.
      * destruct Hstep as [t1 [E [R Sl]]]. rewrite E. simpl.
        exists 1%nat, 0%nat. rewrite R, Sl. simpl. rewrite !app_nil_r.
        repeat split; try lia; destruct (ok resp) eqn:Hok; simpl in H;
          try (destruct (status resp =? 429); discriminate);
          inversion H; subst; assumption.
    + destruct Hstep as [t1 [E [R Sl]]]. rewrite E. simpl.
      exists 1%nat, 0%nat. rewrite R, Sl. simpl. rewrite !app_nil_r.
      repeat split; try lia; discriminate.
Qed.

(** X4. [fetchWithRetry] never issues more than [retries] requests, all of
    them the same request; it sleeps for [delay] after each of them but
    possibly the last, and not otherwise. *)
Theorem fetchWithRetry_bounded (f : source_file) (net : transport)
  (u : jsstring) (o : request_init) (retries delay : Z) (t : trace) :
  exists n s,
    requests_of (snd (fetchWithRetry_of f net u o retries delay t))
    = requests_of t ++ repeat {| url := u; init := o |} n
    /\ sleeps_of (snd (fetchWithRetry_of f net u o retries delay t))
       = sleeps_of t ++ repeat delay s
    /\ Z.of_nat n <= Z.max retries 0
    /\ (s = n \/ S s = n).
Proof.
  rewrite fetchWithRetry_loop.
  destruct (retry_loop_shape f net u o retries delay (Z.to_nat retries) 0 t)
    as [n [s [R [Sl [Hle [Hs _]]]]]].
  exists n, s. repeat split; [exact R | exact Sl | lia | lia].
Qed.

(** X5. A response that [fetchWithRetry] returns has a 2xx status, and it
    is the answer of the transport to the last request of the call, which
    came after one sleep per earlier request. *)
Theorem fetchWithRetry_returns_ok (f : source_file) (net : transport)
  (u : jsstring) (o : request_init) (retries delay : Z) (t t' : trace) (resp : response) :
  fetchWithRetry_of f net u o retries delay t = (Returned resp, t') ->
  ok resp = true
  /\ exists s,
       Z.of_nat s < retries
       /\ requests_of t' = requests_of t ++ repeat {| url := u; init := o |} (S s)
       /\ sleeps_of t' = sleeps_of t ++ repeat delay s
       /\ net (requests_of t ++ repeat {| url := u; init := o |} s)
            {| url := u; init := o |} = Responds resp.
Proof.
  rewrite fetchWithRetry_loop. intros E.
  destruct (retry_loop_shape f net u o retries delay (Z.to_nat retries) 0 t)
    as [n [s [R [Sl [Hle [Hs Hret]]]]]].
  rewrite E in R, Sl, Hret. simpl in R, Sl.
  destruct (Hret resp eq_refl) as [Hok [Hn Hnet]]. subst n.
  split; [exact Hok|]. exists s. repeat split; [lia | exact R | exact Sl | exact Hnet].
Qed.

Lemma fetchWithRetry_returns_ok_witness :
  ok {| status := 204; body_text := [] |} = true
  /\ exists s,
       Z.of_nat s < 2
       /\ [ {| url := js "u"; init := sample_init |}; {| url := js "u"; init := sample_init |} ]
          = [] ++ repeat {| url := js "u"; init := sample_init |} (S s)
       /\ [2000] = [] ++ repeat 2000 s
       /\ overloaded_first 1 {| status := 204; body_text := [] |}
            ([] ++ repeat {| url := js "u"; init := sample_init |} s)
            {| url := js "u"; init := sample_init |}
          = Responds {| status := 204; body_text := [] |}.
Proof.
  exact (fetchWithRetry_returns_ok part_000
           (overloaded_first 1 {| status := 204; body_text := [] |})
           (js "u") sample_init 2 2000 []
           [ Request {| url := js "u"; init := sample_init |}; Sleep 2000;
             Request {| url := js "u"; init := sample_init |} ]
           {| status := 204; body_text := [] |} eq_refl).
Defined.

(** X6. The first answer of the transport that is not a 503 response decides
    the call, when it comes within the [retries] attempts: after [j]
    overloaded answers, a 2xx response is returned, a 429 response gives the
    quota error, any other response the upstream error and a rejection of
    the request is rethrown as it is; the call has then issued [j + 1]
    requests and slept [j] times for [delay]. *)
Theorem fetchWithRetry_decisive_answer (f : source_file) (net : transport)
  (u : jsstring) (o : request_init) (retries delay : Z) (t : trace)
  (j : nat) (a : fetch_result) :
  Z.of_nat j < retries ->
  (forall m, (m < j)%nat ->
     overloaded (net (requests_of t ++ repeat {| url := u; init := o |} m)
                   {| url := u; init := o |})) ->
  net (requests_of t ++ repeat {| url := u; init := o |} j) {| url := u; init := o |} = a ->
  ~ overloaded a ->
  exists t',
    fetchWithRetry_of f net u o retries delay t = (verdict f a, t')
    /\ requests_of t' = requests_of t ++ repeat {| url := u; init := o |} (S j)
    /\ sleeps_of t' = sleeps_of t ++ repeat delay j.
Proof.
  intros Hj Hov Ha Hno. rewrite fetchWithRetry_loop.
  replace (Z.to_nat retries) with (j + S (Z.to_nat retries - j - 1))%nat by lia.
  destruct (retry_loop_overloaded f net u o retries delay j
              (S (Z.to_nat retries - j - 1)) 0 t Hov) as [t1 [E [R Sl]]].
  rewrite E.
  pose proof (retry_loop_step f net u o retries delay (Z.to_nat retries - j - 1)
                (0 + Z.of_nat j) t1) as Hstep.
  assert (Hn1 : net (requests_of t1) {| url := u; init := o |} = a)
    by (rewrite R; exact Ha).
  rewrite Hn1 in Hstep.
  assert (Hdone : exists t',
            retry_loop_of f net u o retries delay (S (Z.to_nat retries - j - 1))
              (0 + Z.of_nat j) t1 = (verdict f a, t')
            /\ requests_of t' = requests_of t1 ++ [{| url := u; init := o |}]
            /\ sleeps_of t' = sleeps_of t1).
  { destruct a as [resp|msg]; [|exact Hstep].
    apply not_overloaded_status in Hno.
    destruct (Z.eqb_spec (status resp) 503); [contradiction|].
    exact Hstep. }
  destruct Hdone as [t' [E' [R' Sl']]].
  exists t'. split; [exact E'|]. rewrite R', Sl', R, Sl, <- app_assoc, repeat_snoc.
  now split.
Qed.

Lemma fetchWithRetry_decisive_answer_witness :
  fst (ServerJs.fetchWithRetry (overloaded_first 2 {| status := 429; body_text := js "quota" |})
         (js "u") sample_init 5 2000 [])
  = Thrown (Error (js "Quota exceeded. Please try again later.")).
Proof.
  destruct (fetchWithRetry_decisive_answer server_js
              (overloaded_first 2 {| status := 429; body_text := js "quota" |})
              (js "u") sample_init 5 2000 [] 2
              (Responds {| status := 429; body_text := js "quota" |})) as [t' [E _]].
  - lia.
  - intros m Hm. eexists. destruct m as [|[|m]]; [split; reflexivity | split; reflexivity | lia].
  - reflexivity.
  - intros [resp [E H]]. inversion E; subst. discriminate.
  - simpl in E. rewrite E. reflexivity.
Defined.

(** X7. When the transport answers 503 whatever was asked before, the call
    throws the overloaded-after-retries error after as many requests as
    [retries] allows, and after as many sleeps: it waits for [delay] once
    more after its last request. *)
Theorem fetchWithRetry_exhausted (f : source_file) (net : transport)
  (u : jsstring) (o : request_init) (retries delay : Z) (t : trace) :
  (forall earlier, overloaded (net earlier {| url := u; init := o |})) ->
  exists t',
    fetchWithRetry_of f net u o retries delay t = (Thrown (TransientExhausted f), t')
    /\ requests_of t' = requests_of t ++ repeat {| url := u; init := o |} (Z.to_nat retries)
    /\ sleeps_of t' = sleeps_of t ++ repeat delay (Z.to_nat retries).
Proof.
  intros Hov. rewrite fetchWithRetry_loop.
  destruct (retry_loop_overloaded f net u o retries delay (Z.to_nat retries) 0 0 t)
    as [t1 [E [R Sl]]]; [intros m _; apply Hov|].
  rewrite Nat.add_0_r in E. rewrite E, retry_loop_done. eauto.
Qed.

Lemma fetchWithRetry_exhausted_witness :
  exists t',
    Part000.fetchWithRetry (always {| status := 503; body_text := [] |})
      (js "u") sample_init 4 250 [] = (Thrown (Error (js "Model overloaded after retries")), t')
    /\ sleeps_of t' = [250; 250; 250; 250].
Proof.
  destruct (fetchWithRetry_exhausted part_000 (always {| status := 503; body_text := [] |})
              (js "u") sample_init 4 250 []) as [t' [E [_ Sl]]].
  - intros earlier. eexists; split; reflexivity.
  - exists t'. split; [exact E | exact Sl].
Defined.

(* ================================================================== *)
(** ** The extractor: surrounding text, other values *)

Lemma index_from_app c p x i :
  ~ In c p -> index_from c (p ++ c :: x) i = i + Z.of_nat (List.length p).
Proof.
  revert i. induction p as [|y p IH]; intros i Hp; simpl.
  - rewrite N.eqb_refl. lia.
  - destruct (N.eqb_spec y c) as [->|_]; [exfalso; apply Hp; now left|].
    rewrite IH; [lia | intros H; apply Hp; now right].
Qed.

Lemma last_index_from_app c y q i found :
  ~ In c q -> last_index_from c (y ++ c :: q) i found = i + Z.of_nat (List.length y).
Proof.
  intros Hq. revert i found. induction y as [|x y IH]; intros i found; simpl.
  - rewrite N.eqb_refl.
    rewrite (proj2 (last_index_from_absent c q (i + 1) i ltac:(lia)) Hq). lia.
  - rewrite IH. lia.
Qed.

Lemma skipn_length_app {A} (p l : list A) : skipn (List.length p) (p ++ l) = l.
Proof. induction p as [|x p IH]; simpl; [reflexivity | exact IH]. Qed.

Lemma firstn_length_app {A} (j l : list A) : firstn (List.length j) (j ++ l) = j.
Proof. induction j as [|x j IH]; simpl; [reflexivity | now rewrite IH]. Qed.

Lemma substring_middle p j q :
  substring (p ++ j ++ q) (Z.of_nat (List.length p))
    (Z.of_nat (List.length p) + Z.of_nat (List.length j)) = j.
Proof.
  unfold substring. cbv zeta. rewrite !length_app.
  match goal with
  | |- firstn ?a (skipn ?b _) = _ =>
      replace a with (List.length j) by lia; replace b with (List.length p) by lia
  end.
  now rewrite skipn_length_app, firstn_length_app.
Qed.

(** X8. Text before and after the JSON object does not matter: for a text
    made of a prefix without opening brace, a span from an opening to a
    closing brace and a suffix without closing brace, the extractor returns
    what [JSON.parse] returns for the span alone, and fails when that
    fails. *)
Theorem extractJSON_ignores_surrounding_text (f : source_file)
  (p inner q : jsstring) :
  ~ In (cu "{") p -> ~ In (cu "}") q ->
  extractJSON_of f (VString (p ++ (cu "{" :: inner ++ [cu "}"]) ++ q)) =
  match JSON_parse (cu "{" :: inner ++ [cu "}"]) with
  | Returned v => Returned v
  | Thrown _ => Thrown (ParseError_invalid f)
  end.
Proof.
  intros Hp Hq.
  set (j := cu "{" :: inner ++ [cu "}"]).
  assert (Hstart : indexOf (p ++ j ++ q) (cu "{") = Z.of_nat (List.length p)).
  { unfold indexOf, j. simpl. now rewrite index_from_app. }
  assert (Hend : lastIndexOf (p ++ j ++ q) (cu "}") + 1
                 = Z.of_nat (List.length p) + Z.of_nat (List.length j)).
  { unfold lastIndexOf, j.
    replace (p ++ (cu "{" :: inner ++ [cu "}"]) ++ q)
      with ((p ++ cu "{" :: inner) ++ cu "}" :: q)
      by (simpl; rewrite <- !app_assoc; reflexivity).
    rewrite last_index_from_app by assumption.
    rewrite length_app. cbn [List.length]. rewrite length_app. cbn [List.length]. lia. }
  assert (Hb : (indexOf (p ++ j ++ q) (cu "{") =? -1)
               || (lastIndexOf (p ++ j ++ q) (cu "}") =? -1) = false).
  { assert (1 <= List.length j)%nat by (unfold j; simpl; lia).
    rewrite orb_false_iff, !Z.eqb_neq. lia. }
  destruct f; cbn [extractJSON_of ParseError_invalid].
  - rewrite ServerJs_extractJSON_string, Hb, Hend, Hstart, substring_middle.
    now destruct (JSON_parse j).
  - rewrite Part000_extractJSON_string, Hb, Hend, Hstart, substring_middle.
    destruct (JSON_parse j) as [v|e] eqn:E; [reflexivity|].
    now rewrite (JSON_parse_throws _ _ E).
Qed.

Lemma extractJSON_ignores_surrounding_text_witness :
  ServerJs.extractJSON (VString (jsq "```json {'a':[1,{}]} ``` done"))
  = Returned (VObject [(js "a", VArray [integer 1; VObject []])]).
Proof.
  apply (extractJSON_ignores_surrounding_text server_js
           (js "```json ") (jsq "'a':[1,{}]") (js " ``` done")).
  - vm_compute. intuition discriminate.
  - vm_compute. intuition discriminate.
Defined.

(** X9. The extractor never returns for a value that is not a string
    (a number, a boolean, an array, an object): it fails, in [server.js]
    with its one message. *)
Theorem extractJSON_rejects_non_strings (f : source_file) (v : value) :
  (forall s, v <> VString s) ->
  exists e,
    extractJSON_of f v = Thrown e
    /\ (f = server_js -> e = Error (js "Failed to parse JSON from AI response.")).
Proof.
  intros Hv. destruct f; cbn [extractJSON_of].
  - exists (Error (js "Failed to parse JSON from AI response.")). split; [|reflexivity].
    unfold ServerJs.extractJSON.
    destruct v as [| | b | n | s | l | ms]; try reflexivity.
    + now destruct (Hv s).
    + cbn [call_indexOf call_lastIndexOf call_substring obind].
      now destruct ((array_index_from [cu "{"] l 0 =? -1)
                    || (array_last_index_from [cu "}"] l 0 (-1) =? -1)).
  - unfold Part000.extractJSON.
    destruct v as [| | b | n | s | l | ms]; try (eexists; split; [reflexivity | discriminate]).
    + now destruct (Hv s).
    + cbn [call_indexOf call_lastIndexOf call_substring obind].
      destruct ((array_index_from [cu "{"] l 0 =? -1)
                || (array_last_index_from [cu "}"] l 0 (-1) =? -1));
        eexists; (split; [reflexivity | discriminate]).
Qed.

Lemma extractJSON_rejects_non_strings_witness :
  exists e, Part000.extractJSON (VArray [VString (js "{"); VString (js "}")]) = Thrown e.
Proof.
  destruct (extractJSON_rejects_non_strings part_000
              (VArray [VString (js "{"); VString (js "}")])) as [e [E _]].
  - discriminate.
  - exists e. exact E.
Defined.

(** X10. What the extractor returns for a string is the value of the span
    between the first opening and the last closing brace, both of which the
    string has; and the value is an object, unless the first opening brace
    comes after the last closing brace. *)
Theorem extractJSON_returned (f : source_file) (s : jsstring) (v : value) :
  extractJSON_of f (VString s) = Returned v ->
  In (cu "{") s /\ In (cu "}") s
  /\ JSON_parse (substring s (indexOf s (cu "{")) (lastIndexOf s (cu "}") + 1)) = Returned v
  /\ ((exists ms, v = VObject ms) \/ lastIndexOf s (cu "}") < indexOf s (cu "{")).
Proof.
  intros H.
  assert (Hp : (indexOf s (cu "{") =? -1) || (lastIndexOf s (cu "}") =? -1) = false
               /\ JSON_parse (substring s (indexOf s (cu "{")) (lastIndexOf s (cu "}") + 1))
                  = Returned v).
  { destruct f; cbn [extractJSON_of] in H.
    - rewrite ServerJs_extractJSON_string in H.
      destruct ((indexOf s (cu "{") =? -1) || (lastIndexOf s (cu "}") =? -1));
        [discriminate|].
      split; [reflexivity|]. destruct (JSON_parse _); [exact H | discriminate].
    - rewrite Part000_extractJSON_string in H.
      destruct ((indexOf s (cu "{") =? -1) || (lastIndexOf s (cu "}") =? -1));
        [discriminate|].
      now split. }
  destruct Hp as [Hb Hp]. destruct (proj1 (braces_present s) Hb) as [Ho Hc].
  repeat split; try assumption.
  destruct (Z_lt_le_dec (lastIndexOf s (cu "}")) (indexOf s (cu "{"))) as [Hlt|Hle];
    [now right | left].
  apply orb_false_iff in Hb. destruct Hb as [Hs _]. apply Z.eqb_neq in Hs.
  destruct (indexOf_found s (cu "{") Hs) as [Hr _].
  apply (extractJSON_in_order f s v); [lia | exact Hp].
Qed.

Lemma extractJSON_returned_witness :
  In (cu "{") (js "} 1 {") /\ lastIndexOf (js "} 1 {") (cu "}") < indexOf (js "} 1 {") (cu "{").
Proof.
  destruct (extractJSON_returned part_000 (js "} 1 {") (integer 1) eq_refl)
    as [Ho [_ [_ [[ms Hms] | Hlt]]]].
  - discriminate Hms.
  - split; assumption.
Defined.

(* ================================================================== *)
(** ** The iteration: what it makes of a response *)

Lemma envelope_text_opt_thrown data e :
  envelope_text data = Thrown e -> envelope_text_opt data = VUndefined.
Proof.
  unfold envelope_text, envelope_text_opt, get_opt, get0_opt, obind.
  destruct (get data (js "candidates")) as [a1|]; [|reflexivity].
  destruct (get0 a1) as [a2|]; [|reflexivity].
  destruct (get a2 (js "content")) as [a3|]; [|reflexivity].
  destruct (get a3 (js "parts")) as [a4|]; [|reflexivity].
  destruct (get0 a4) as [a5|]; [|reflexivity].
  destruct (get a5 (js "text")) as [a6|]; [discriminate | reflexivity].
Qed.

Lemma extractJSON_falsy f x : ToBoolean x = false -> exists e, extractJSON_of f x = Thrown e.
Proof.
  intros H. destruct x as [| | b | n | s | l | ms]; try discriminate;
    try (destruct f; eexists; reflexivity).
  destruct s; [|discriminate]. destruct f; eexists; reflexivity.
Qed.

(** The [try] block of [server.js], from the fetched response on: its
    check of the envelope does not change what comes out. *)
Lemma ServerJs_after_fetch engine model resp t :
  exists t',
    try_catch
      (finalResponse <-
         (data <- json resp ;;
          if negb (ToBoolean (envelope_text_opt data)) then
            throw (Error (js "Invalid Gemini response structure."))
          else
            generated <- lift (envelope_text data) ;;
            finalResponse <- lift (ServerJs.extractJSON generated) ;;
            console log [[9989%N] ++ js " Success using model: " ++ model] ;;
            ret finalResponse) ;;
       ret (Some finalResponse))
      (fun err =>
         console error [[10060%N] ++ js " " ++ model ++ js " failed: " ++ message_of engine err] ;;
         ret None) t
    = (Returned match generated_value server_js resp with
                | Returned v => Some v
                | Thrown _ => None
                end, t')
    /\ requests_of t' = requests_of t.
Proof.
  unfold generated_value, try_catch, bind, json, lift, obind.
  destruct (JSON_parse (body_text resp)) as [data|e0].
  - destruct (envelope_text data) as [x|e1] eqn:Henv.
    + rewrite (envelope_text_opt_strict _ _ Henv).
      destruct (ToBoolean x) eqn:Hx; simpl.
      * cbn [extractJSON_of]. destruct (ServerJs.extractJSON x) as [v|e2]; simpl;
          eexists; (split; [reflexivity | trace_norm; reflexivity]).
      * destruct (extractJSON_falsy server_js x Hx) as [e2 He2].
        cbn [extractJSON_of] in He2 |- *. rewrite He2. simpl.
        eexists; split; [reflexivity | trace_norm; reflexivity].
    + rewrite (envelope_text_opt_thrown _ _ Henv). simpl.
      eexists; split; [reflexivity | trace_norm; reflexivity].
  - simpl. eexists; split; [reflexivity | trace_norm; reflexivity].
Qed.

(** X11. Both files make the same of a fetched response: the iteration
    yields [v] exactly when the body is JSON, the envelope has the text at
    [candidates[0].content.parts[0].text] and the extractor returns [v] for
    it, and yields nothing otherwise (the extra check of the envelope in
    [server.js] rejects nothing that would have gone through); when the
    fetcher throws, the iteration yields nothing.  It issues no request
    besides those of the fetcher. *)
Theorem iteration_outcome (f : source_file) (net : transport)
  (engine : runtime) (key : jsstring) (prompt : jsstring) (model : jsstring)
  (t : trace) :
  exists t',
    iteration_of f net engine key prompt model t =
    (Returned match fetchWithRetry_of f net (api_url model key) (options_of f prompt) 3 2000
                      (at_fetch f model t) with
              | (Returned resp, _) =>
                  match generated_value f resp with
                  | Returned v => Some v
                  | Thrown _ => None
                  end
              | (Thrown _, _) => None
              end, t')
    /\ requests_of t' =
       requests_of (snd (fetchWithRetry_of f net (api_url model key) (options_of f prompt)
                           3 2000 (at_fetch f model t))).
Proof.
  destruct f; cbn [iteration_of fetchWithRetry_of options_of at_fetch].
  - unfold ServerJs.iteration. rewrite bind_console.
    destruct (ServerJs.fetchWithRetry net (api_url model key) (ServerJs.options prompt) 3 2000
                (t ++ [Console log [[55357; 56633]%N ++ js " Trying model: " ++ model]]))
      as [[resp|e] t1] eqn:E.
    + destruct (ServerJs_after_fetch engine model resp t1) as [t' [H R]].
      exists t'. split; [|exact R].
      rewrite <- H. unfold ServerJs.attempt, try_catch, bind. rewrite E. reflexivity.
    + eexists. unfold ServerJs.attempt, try_catch, bind. rewrite E. simpl.
      split; [reflexivity | trace_norm; reflexivity].
  - unfold Part000.iteration, Part000.attempt, try_catch, bind.
    destruct (Part000.fetchWithRetry net (api_url model key) (Part000.options prompt) 3 2000 t)
      as [[resp|e] t1] eqn:E.
    + unfold generated_value, json, lift, obind. cbn [extractJSON_of].
      destruct (JSON_parse (body_text resp)) as [data|e0]; simpl.
      * destruct (envelope_text data) as [x|e1]; simpl.
        -- destruct (Part000.extractJSON x) as [v|e2]; simpl;
             eexists; (split; [reflexivity | trace_norm; reflexivity]).
        -- eexists; split; [reflexivity | trace_norm; reflexivity].
      * eexists; split; [reflexivity | trace_norm; reflexivity].
    + simpl. eexists; split; [reflexivity | trace_norm; reflexivity].
Qed.

(* ================================================================== *)
(** ** The handler: every request *)

Lemma bursts_length f key prompt models ns :
  Forall (fun n => (1 <= n <= 3)%nat) ns ->
  (List.length (bursts f key prompt models ns) <= 3 * List.length models)%nat.
Proof.
  revert ns. induction models as [|m models IH]; intros [|n ns] H; simpl; try lia.
  inversion H; subst. rewrite length_app, repeat_length. specialize (IH ns H3). lia.
Qed.

(** The loop over the models always completes; its requests are one burst
    per model of a prefix of the list. *)
Lemma loop_requests f net engine key prompt models t :
  exists x t' prefix rest ns,
    for_of (iteration_of f net engine key prompt) models VNull t = (Returned x, t')
    /\ models = prefix ++ rest
    /\ List.length ns = List.length prefix
    /\ Forall (fun n => (1 <= n <= 3)%nat) ns
    /\ requests_of t' = requests_of t ++ bursts f key prompt prefix ns
    /\ (ToBoolean x = true ->
        (List.length (requests_of t) < List.length (requests_of t'))%nat).
Proof.
  destruct (for_of_cases (iteration_of f net engine key prompt) models VNull t
              (iteration_returns f net engine key prompt))
    as [[t1 [Hf Hfor]] | [pre [m [post [t1 [t2 [v [Hm [Hf [Hi Hfor]]]]]]]]]].
  - destruct (failing_requests f net engine key prompt models t t1 Hf) as [ns [Hlen [Hall R]]].
    exists VNull, t1, models, [], ns. rewrite app_nil_r.
    repeat split; try assumption. discriminate.
  - destruct (failing_requests f net engine key prompt pre t t1 Hf) as [ns [Hlen [Hall R]]].
    destruct (iteration_requests f net engine key prompt m t1) as [n [Hn Rn]].
    rewrite Hi in Rn. simpl in Rn.
    exists v, t2, (pre ++ [m]), post, (ns ++ [n]).
    split; [exact Hfor|]. split; [now rewrite <- app_assoc|].
    split; [rewrite !length_app; simpl; lia|].
    split; [apply Forall_app; split; [exact Hall | now constructor]|].
    split.
    + rewrite (bursts_snoc f key prompt pre ns m n Hlen), Rn, R. now rewrite app_assoc.
    + intros _. rewrite Rn, length_app, repeat_length, R, length_app. lia.
Qed.

Lemma orchestrate_of_loop f net engine key prompt models t x t' :
  for_of (iteration_of f net engine key prompt) models VNull t = (Returned x, t') ->
  orchestrate_of f net engine models key prompt t =
  (if ToBoolean x then Returned x else Thrown (AllModelsExhausted f), t').
Proof.
  intros E. destruct f; cbn [orchestrate_of iteration_of] in *.
  - unfold ServerJs.orchestrate, bind. rewrite E. now destruct (ToBoolean x).
  - unfold Part000.orchestrate, bind. rewrite E. now destruct (ToBoolean x).
Qed.

Lemma message_of_exhausted f engine :
  message_of engine (AllModelsExhausted f) = exhausted_message f.
Proof. destruct f; reflexivity. Qed.

(** The handler, case by case. *)
Lemma post_generate_cases f net engine models key req_body t :
  match select_topic req_body with
  | Thrown e =>
      exists t',
        post_generate_of f net engine models key req_body t =
        (Returned {| code := 503; payload := error_body (message_of engine e) |}, t')
        /\ requests_of t' = requests_of t
  | Returned topic =>
      if key_missing key then
        exists t',
          post_generate_of f net engine models key req_body t =
          (Returned {| code := 503; payload := error_body (credential_missing f) |}, t')
          /\ requests_of t' = requests_of t
      else if ToBoolean topic then
        match prompt_of f engine topic with
        | Thrown e =>
            exists t',
              post_generate_of f net engine models key req_body t =
              (Returned {| code := 503; payload := error_body (message_of engine e) |}, t')
              /\ requests_of t' = requests_of t
        | Returned prompt =>
            exists x t1 t',
              for_of (iteration_of f net engine (key_string key) prompt) models VNull t
              = (Returned x, t1)
              /\ requests_of t' = requests_of t1
              /\ post_generate_of f net engine models key req_body t =
                 (Returned (if ToBoolean x
                            then match JSON_stringify engine x with
                                 | Returned body => {| code := 200; payload := sent body |}
                                 | Thrown e =>
                                     {| code := 503;
                                        payload := error_body (message_of engine e) |}
                                 end
                            else {| code := 503;
                                    payload := error_body (exhausted_message f) |}),
                  t')
        end
      else
        post_generate_of f net engine models key req_body t =
        (Returned {| code := 400; payload := error_body (topic_required f) |}, t)
  end.
Proof.
  destruct (select_topic req_body) as [topic|e] eqn:Hsel.
  - destruct (key_missing key) eqn:Hkey.
    + destruct f; cbn [post_generate_of].
      * unfold ServerJs.post_generate, try_catch, bind, lift. rewrite Hsel, Hkey.
        cbn [throw console emit]. rewrite res_json_error. unfold ret.
        eexists; split; [reflexivity | trace_norm; reflexivity].
      * unfold Part000.post_generate, try_catch, bind, lift. rewrite Hsel, Hkey.
        cbn [throw]. rewrite res_json_error. unfold ret.
        eexists; split; reflexivity.
    + destruct (ToBoolean topic) eqn:Htruthy;
        [|now apply post_generate_falsy_topic with (topic := topic)].
      destruct (prompt_of f engine topic) as [prompt|e] eqn:Hp.
      * destruct (loop_requests f net engine (key_string key) prompt models t)
          as [x [t1 [_ [_ [_ [Hfor _]]]]]].
        pose proof (orchestrate_of_loop f net engine (key_string key) prompt models t x t1 Hfor)
          as Ho.
        exists x, t1. destruct (ToBoolean x) eqn:Hx.
        -- destruct (JSON_stringify engine x) as [body|e] eqn:Hs.
           ++ exists t1. split; [exact Hfor|]. split; [reflexivity|].
              exact (post_generate_success f net engine models key req_body topic prompt t t1 x
                       body Hsel Htruthy Hkey Hp Ho Hs).
           ++ destruct (post_generate_overflow f net engine models key req_body topic prompt
                          t t1 x e Hsel Htruthy Hkey Hp Ho Hs) as [Hfst Hreq].
              destruct (post_generate_of f net engine models key req_body t) as [o t'].
              simpl in Hfst, Hreq. subst o. exists t'. now repeat split.
        -- destruct (post_generate_failure f net engine models key req_body topic prompt t t1
                       (AllModelsExhausted f) Hsel Htruthy Hkey Hp Ho) as [Hfst Hreq].
           destruct (post_generate_of f net engine models key req_body t) as [o t'].
           simpl in Hfst, Hreq. subst o. rewrite message_of_exhausted.
           exists t'. now repeat split.
      * destruct (post_generate_unprintable f net engine models key req_body topic t e
                    Hsel Htruthy Hkey Hp) as [Hfst Hreq].
        destruct (post_generate_of f net engine models key req_body t) as [o t'].
        simpl in Hfst, Hreq. subst o. exists t'. now split.
  - destruct f; cbn [post_generate_of].
    + unfold ServerJs.post_generate, try_catch, bind, lift. rewrite Hsel.
      cbn [console emit]. rewrite res_json_error. unfold ret.
      eexists; split; [reflexivity | trace_norm; reflexivity].
    + unfold Part000.post_generate, try_catch, bind, lift. rewrite Hsel.
      rewrite res_json_error. unfold ret.
      eexists; split; reflexivity.
Qed.

Lemma select_topic_thrown req_body e :
  select_topic req_body = Thrown e ->
  e = TypeError /\ (req_body = VUndefined \/ req_body = VNull).
Proof.
  unfold select_topic, obind, get.
  destruct req_body as [| | b | n | s | l | ms]; try (intros H; inversion H; now auto);
    simpl; try discriminate.
  destruct (ToBoolean _); discriminate.
Qed.

(** X12. The handler has three kinds of reply.  200 carries the
    serialization of a truthy value and comes after at least one outbound
    request.  400 carries the topic-required message and leaves no trace at
    all.  503 carries the missing-credential message, the all-models
    message, or the wording of an error of the engine: the [TypeError] for
    a request body that is [undefined] or [null]; the error of the
    conversion of the topic to a string, before any outbound request; or
    the [RangeError] of the serialization of the result.  What a single
    model failed with (quota, upstream status, parse error) never reaches
    the caller. *)
Theorem post_generate_classified (f : source_file) (net : transport)
  (engine : runtime) (models : list jsstring) (key : option jsstring)
  (req_body : value) (t t' : trace) (rep : reply) :
  post_generate_of f net engine models key req_body t = (Returned rep, t') ->
  (code rep = 200
   /\ (exists v, ToBoolean v = true /\ JSON_stringify engine v = Returned (Some (payload rep)))
   /\ (List.length (requests_of t) < List.length (requests_of t'))%nat)
  \/ (code rep = 400 /\ payload rep = error_body (topic_required f) /\ t' = t)
  \/ (code rep = 503
      /\ (payload rep = error_body (credential_missing f)
          \/ payload rep = error_body (exhausted_message f)
          \/ ((req_body = VUndefined \/ req_body = VNull)
              /\ payload rep = error_body (wording engine TypeError))
          \/ (exists topic e,
                select_topic req_body = Returned topic
                /\ prompt_of f engine topic = Thrown e
                /\ (e = NotPrimitive \/ e = RangeError)
                /\ payload rep = error_body (wording engine e)
                /\ requests_of t' = requests_of t)
          \/ (exists v,
                ToBoolean v = true
                /\ JSON_stringify engine v = Thrown RangeError
                /\ payload rep = error_body (wording engine RangeError)))).
Proof.
  intros E. pose proof (post_generate_cases f net engine models key req_body t) as H.
  destruct (select_topic req_body) as [topic|e] eqn:Hsel.
  - destruct (key_missing key).
    + destruct H as [t1 [E1 _]]. rewrite E in E1. inversion E1; subst.
      right; right. split; [reflexivity | now left].
    + destruct (ToBoolean topic).
      * destruct (prompt_of f engine topic) as [prompt|e] eqn:Hp.
        -- destruct H as [x [t1 [t2 [Hfor [R E1]]]]]. rewrite E in E1.
           destruct (ToBoolean x) eqn:Hx.
           ++ destruct (JSON_stringify_cases engine x (truthy_defined x Hx))
                as [[body Hbody]|Hthrown].
              ** rewrite Hbody in E1. inversion E1; subst.
                 left. split; [reflexivity|]. split; [exists x; now split|].
                 destruct (loop_requests f net engine (key_string key) prompt models t)
                   as [x' [t1' [_ [_ [_ [Hfor' [_ [_ [_ [_ Hgrow]]]]]]]]]].
                 rewrite Hfor in Hfor'. inversion Hfor'; subst. rewrite R. now apply Hgrow.
              ** rewrite Hthrown in E1. inversion E1; subst.
                 right; right. split; [reflexivity|]. do 4 right.
                 exists x. now repeat split.
           ++ inversion E1; subst. right; right. split; [reflexivity | right; now left].
        -- destruct H as [t1 [E1 R]]. rewrite E in E1. inversion E1; subst.
           right; right. split; [reflexivity|]. do 3 right. left.
           exists topic, e. pose proof (prompt_of_throws f engine topic e Hp) as He.
           repeat split; try assumption.
           destruct He as [-> | ->]; reflexivity.
      * rewrite E in H. inversion H; subst. right; left. now repeat split.
  - destruct H as [t1 [E1 _]]. rewrite E in E1. inversion E1; subst.
    destruct (select_topic_thrown req_body e Hsel) as [-> Hb].
    right; right. split; [reflexivity|]. right; right; left. now split.
Qed.

Lemma post_generate_classified_witness :
  code {| code := 503;
          payload := error_body (js "All Gemini models unavailable or quota exhausted") |}
  = 503.
Proof.
  destruct (post_generate_classified part_000
              (always {| status := 429; body_text := js "quota" |}) silent_engine
              [js "only"] (Some (js "secret")) (body_with_topic (VString (js "cats"))) []
              [ Request (request_for part_000 (js "secret") (Part000.template (js "cats"))
                           (js "only"));
                Console warn [[9888; 65039]%N ++ js " only failed"] ]
              {| code := 503;
                 payload := error_body
                              (js "All Gemini models unavailable or quota exhausted") |}
              eq_refl)
    as [[H _] | [[H _] | [H _]]]; try discriminate H.
  exact H.
Defined.

(** X13. With the credential configured and a truthy topic, the outbound
    requests of one handled request are one burst of one to three equal
    requests per model, for the models of a prefix of the list and in the
    order of the list; so they are at most three times as many as the
    models.  Each of them carries the prompt of the topic; the prefix is
    empty when the topic has no prompt. *)
Theorem post_generate_request_log (f : source_file) (net : transport)
  (engine : runtime) (models : list jsstring) (key : option jsstring)
  (req_body topic : value) (t : trace) :
  key_missing key = false ->
  select_topic req_body = Returned topic -> ToBoolean topic = true ->
  exists prefix rest ns prompt,
    models = prefix ++ rest
    /\ List.length ns = List.length prefix
    /\ Forall (fun n => (1 <= n <= 3)%nat) ns
    /\ (prefix = [] \/ prompt_of f engine topic = Returned prompt)
    /\ requests_of (snd (post_generate_of f net engine models key req_body t))
       = requests_of t ++ bursts f (key_string key) prompt prefix ns
    /\ (List.length (requests_of (snd (post_generate_of f net engine models key req_body t)))
        <= List.length (requests_of t) + 3 * List.length models)%nat.
Proof.
  intros Hkey Hsel Htruthy.
  pose proof (post_generate_cases f net engine models key req_body t) as H.
  rewrite Hsel, Hkey, Htruthy in H.
  destruct (prompt_of f engine topic) as [prompt|e] eqn:Hp.
  - destruct H as [x [t1 [t' [Hfor [R E]]]]].
    destruct (loop_requests f net engine (key_string key) prompt models t)
      as [x' [t1' [prefix [rest [ns [Hfor' [Hm [Hlen [Hall [Rb _]]]]]]]]]].
    rewrite Hfor in Hfor'. inversion Hfor'; subst x' t1'.
    exists prefix, rest, ns, prompt. rewrite E. simpl. rewrite R, Rb.
    repeat split; try assumption; [now right|].
    rewrite length_app. pose proof (bursts_length f (key_string key) prompt prefix ns Hall).
    rewrite Hm, length_app. lia.
  - destruct H as [t' [E R]]. exists [], models, [], []. rewrite E. simpl. rewrite R.
    repeat split; [constructor | now left | now rewrite app_nil_r | lia].
Qed.

Lemma post_generate_request_log_witness :
  (List.length (requests_of (snd (ServerJs.app_post_generate
                                    (always {| status := 503; body_text := [] |})
                                    silent_engine (Some (js "secret"))
                                    (body_with_topic (VString (js "cats"))) [])))
   <= 12)%nat.
Proof.
  destruct (post_generate_request_log server_js
              (always {| status := 503; body_text := [] |}) silent_engine ServerJs.MODELS
              (Some (js "secret")) (body_with_topic (VString (js "cats")))
              (VString (js "cats")) [] eq_refl eq_refl eq_refl)
    as [prefix [rest [ns [prompt [_ [_ [_ [_ [_ H]]]]]]]]].
  exact H.
Defined.

(** X14. Without the credential the handler replies 503 and issues no
    request; the test of the credential comes before the test of the
    topic, so this is also the reply to a body without topic, with the
    missing-credential message whenever the body can be read. *)
Theorem post_generate_without_credential (f : source_file) (net : transport)
  (engine : runtime) (models : list jsstring) (key : option jsstring)
  (req_body : value) (t : trace) :
  key_missing key = true ->
  requests_of (snd (post_generate_of f net engine models key req_body t)) = requests_of t
  /\ exists message,
       fst (post_generate_of f net engine models key req_body t)
       = Returned {| code := 503; payload := error_body message |}
       /\ (forall topic, select_topic req_body = Returned topic ->
           message = credential_missing f).
Proof.
  intros Hkey. pose proof (post_generate_cases f net engine models key req_body t) as H.
  destruct (select_topic req_body) as [topic|e].
  - rewrite Hkey in H. destruct H as [t' [E R]]. rewrite E. simpl.
    split; [exact R|]. exists (credential_missing f). now split.
  - destruct H as [t' [E R]]. rewrite E. simpl.
    split; [exact R|]. exists (message_of engine e). split; [reflexivity | discriminate].
Qed.

Lemma post_generate_without_credential_witness :
  fst (ServerJs.app_post_generate (always {| status := 200; body_text := [] |})
         silent_engine (Some []) (VObject []) [])
  = Returned {| code := 503; payload := error_body (js "GOOGLE_API_KEY missing in .env") |}.
Proof.
  destruct (post_generate_without_credential server_js
              (always {| status := 200; body_text := [] |}) silent_engine ServerJs.MODELS
              (Some []) (VObject []) [] eq_refl) as [_ [m [E Hm]]].
  unfold ServerJs.app_post_generate. cbn [post_generate_of] in E. rewrite E.
  now rewrite (Hm VUndefined eq_refl).
Defined.

(** X15. When the topic has a prompt and the attempts for all models of
    the list fail, the handler replies 503 with the all-models message,
    after one burst of one to three requests for every model, in the order
    of the list. *)
Theorem post_generate_all_models_fail (f : source_file) (net : transport)
  (engine : runtime) (models : list jsstring) (key : option jsstring)
  (req_body topic : value) (prompt : jsstring) (t t1 : trace) :
  key_missing key = false ->
  select_topic req_body = Returned topic -> ToBoolean topic = true ->
  prompt_of f engine topic = Returned prompt ->
  failing (iteration_of f net engine (key_string key) prompt) models t = Some t1 ->
  fst (post_generate_of f net engine models key req_body t)
  = Returned {| code := 503; payload := error_body (exhausted_message f) |}
  /\ exists ns,
       List.length ns = List.length models
       /\ Forall (fun n => (1 <= n <= 3)%nat) ns
       /\ requests_of (snd (post_generate_of f net engine models key req_body t))
          = requests_of t ++ bursts f (key_string key) prompt models ns.
Proof.
  intros Hkey Hsel Htruthy Hp Hfail.
  pose proof (post_generate_cases f net engine models key req_body t) as H.
  rewrite Hsel, Hkey, Htruthy, Hp in H. destruct H as [x [t2 [t' [Hfor [R E]]]]].
  rewrite (for_of_all_fail _ models VNull t t1 Hfail) in Hfor. inversion Hfor; subst x t2.
  rewrite E. simpl. split; [reflexivity|].
  destruct (failing_requests f net engine (key_string key) prompt models t t1 Hfail)
    as [ns [Hlen [Hall Rb]]].
  exists ns. rewrite R, Rb. now repeat split.
Qed.

Lemma post_generate_all_models_fail_witness :
  fst (Part000.app_post_generate (always {| status := 429; body_text := js "quota" |})
         silent_engine (Some (js "secret")) (body_with_topic (VString (js "cats"))) [])
  = Returned {| code := 503;
                payload := error_body (js "All Gemini models unavailable or quota exhausted") |}
  /\ List.length
       (requests_of (snd (Part000.app_post_generate
                            (always {| status := 429; body_text := js "quota" |})
                            silent_engine (Some (js "secret"))
                            (body_with_topic (VString (js "cats"))) [])))
     = 3%nat.
Proof.
  edestruct (post_generate_all_models_fail part_000
               (always {| status := 429; body_text := js "quota" |}) silent_engine
               Part000.MODELS (Some (js "secret")) (body_with_topic (VString (js "cats")))
               (VString (js "cats")) (Part000.template (js "cats")) []) as [E _].
  - reflexivity.
  - reflexivity.
  - reflexivity.
  - reflexivity.
  - reflexivity.
  - split; [exact E | reflexivity].
Defined.
